(** * ranklist: the text-to-records conversion core (src/parse.js)

    A shallow embedding of [parseInput] and its helpers, and the properties
    of the conversion stated over it.

    Conventions of the embedding.
    - A JavaScript string is its sequence of UTF-16 code units, [list N].
    - A plain object is a finite map from property names to values.
    - [String.prototype.toLowerCase] and the two conversions of the runtime
      between strings and numbers, [Number(s)] and [String(x)], are
      parameters of the development.  The first is only assumed to act as
      expected on ASCII text.  The conversions are only assumed to be exact
      where the runtime is: a numeric text whose value is a double is
      converted to it, a run of digits gives a whole number below 2^1024
      or Infinity, and a whole number up to 2^53 prints as its digits.
    - A number is a double, written as the exact decimal that it is;
      nothing in the development rounds.
    - Reading a property of [undefined] throws a [TypeError]; the embedding
      keeps that outcome, so that "never throws" is a statement to prove.
    - [Array.prototype.sort] is stable; it is embedded as a stable insertion
      sort, which is what the language specifies whenever the comparison
      function is consistent. *)

From Stdlib Require Import ZArith NArith String Ascii Decimal DecimalN Sorting.Sorted.
From stdpp Require Import gmap list.

Local Open Scope N_scope.

(** ** Strings as code-unit sequences *)

Abbreviation jsstring := (list N).

(** An ASCII literal as a JavaScript string. *)
Definition js (s : string) : jsstring :=
  map N_of_ascii (list_ascii_of_string s).

Definition TAB : N := 9.
Definition LF : N := 10.
Definition CR : N := 13.
Definition SP : N := 32.
Definition NBSP : N := 160.
Definition HYPHEN : N := 45.
Definition UNDERSCORE : N := 95.

Definition inRange (lo hi c : N) : bool := (lo <=? c) && (c <=? hi).

(** The class [\s] of regular expressions, which is also what [trim]
    removes: WhiteSpace and LineTerminator code points. *)
Definition isSpace (c : N) : bool :=
  inRange 9 13 c || (c =? 32) || (c =? 160) || (c =? 5760)
  || inRange 8192 8202 c || (c =? 8232) || (c =? 8233) || (c =? 8239)
  || (c =? 8287) || (c =? 12288) || (c =? 65279).

(** [\d] *)
Definition isDigit (c : N) : bool := inRange 48 57 c.

(** [[a-z0-9]] *)
Definition isAlnum (c : N) : bool := inRange 97 122 c || isDigit c.

(** [[a-z0-9_]] *)
Definition isKeyChar (c : N) : bool := isAlnum c || (c =? UNDERSCORE).

(** The straight single and double quote, the class of the first
    replacement in [slugify]. *)
Definition isQuote (c : N) : bool := (c =? 39) || (c =? 34).

(** The complements used by [slugify]: not a straight quote, and
    [[^a-z0-9]]. *)
Definition notQuote (c : N) : bool := negb (isQuote c).
Definition notAlnum (c : N) : bool := negb (isAlnum c).

Definition isAscii (c : N) : bool := c <? 128.

Definition asciiLower (c : N) : N := if inRange 65 90 c then c + 32 else c.

Fixpoint dropWhile (p : N -> bool) (s : jsstring) : jsstring :=
  match s with
  | [] => []
  | c :: s' => if p c then dropWhile p s' else s
  end.

Fixpoint takeWhile (p : N -> bool) (s : jsstring) : jsstring :=
  match s with
  | [] => []
  | c :: s' => if p c then c :: takeWhile p s' else []
  end.

(** Remove the longest suffix whose code units all satisfy [p]. *)
Fixpoint dropWhileEnd (p : N -> bool) (s : jsstring) : jsstring :=
  match s with
  | [] => []
  | c :: s' =>
      match dropWhileEnd p s' with
      | [] => if p c then [] else [c]
      | r => c :: r
      end
  end.

(** [s.trim()] *)
Definition trim (s : jsstring) : jsstring :=
  dropWhileEnd isSpace (dropWhile isSpace s).

(** Removal of trailing white space, [s.replace(/\s+$/g, empty)]. *)
Definition trimEnd (s : jsstring) : jsstring := dropWhileEnd isSpace s.

(** [s.startsWith(p)] *)
Fixpoint startsWith (s p : jsstring) : bool :=
  match p, s with
  | [], _ => true
  | a :: p', b :: s' => (a =? b) && startsWith s' p'
  | _ :: _, [] => false
  end.

(** [s.includes(p)] *)
Fixpoint includes (s p : jsstring) : bool :=
  startsWith s p ||
  match s with
  | [] => false
  | _ :: s' => includes s' p
  end.

(** [s.replace(/[class]+/g, rep)]: every maximal run of code units in the
    class becomes one [rep].  [inRun] tells that the previous code unit
    belonged to the run being replaced. *)
Fixpoint collapseFrom (p : N -> bool) (rep : N) (inRun : bool) (s : jsstring)
  : jsstring :=
  match s with
  | [] => []
  | c :: s' =>
      if p c
      then (if inRun then collapseFrom p rep true s'
            else rep :: collapseFrom p rep true s')
      else c :: collapseFrom p rep false s'
  end.

Definition collapseRuns (p : N -> bool) (rep : N) (s : jsstring) : jsstring :=
  collapseFrom p rep false s.

(** Put a code unit in front of the first piece of a split. *)
Definition consHead (c : N) (pieces : list jsstring) : list jsstring :=
  match pieces with
  | [] => [[c]]
  | x :: xs => (c :: x) :: xs
  end.

(** [s.split(d)] for a one-character separator. *)
Fixpoint splitOn (d : N) (s : jsstring) : list jsstring :=
  match s with
  | [] => [[]]
  | c :: s' => if c =? d then [] :: splitOn d s' else consHead c (splitOn d s')
  end.

(** [s.split(/\r?\n/)] *)
Fixpoint splitLines (s : jsstring) : list jsstring :=
  match s with
  | [] => [[]]
  | c :: s' =>
      if c =? LF then [] :: splitLines s'
      else if c =? CR then
        match s' with
        | d :: s'' => if d =? LF then [] :: splitLines s''
                      else consHead c (splitLines s')
        | [] => consHead c (splitLines s')
        end
      else consHead c (splitLines s')
  end.

(** [s.split(/\s{2,}/g)]: a run of two or more white-space code units
    separates two pieces; a lone one stays inside its piece.  [inSep] tells
    that the scan is inside a separating run. *)
Fixpoint splitWide (inSep : bool) (s : jsstring) : list jsstring :=
  match s with
  | [] => [[]]
  | c :: s' =>
      if isSpace c then
        if inSep then splitWide true s'
        else match s' with
             | d :: _ => if isSpace d then [] :: splitWide true s'
                         else consHead c (splitWide false s')
             | [] => consHead c (splitWide false s')
             end
      else consHead c (splitWide false s')
  end.

(** [cells.join(sep)] *)
Fixpoint join (sep : jsstring) (cells : list jsstring) : jsstring :=
  match cells with
  | [] => []
  | [x] => x
  | x :: rest => x ++ sep ++ join sep rest
  end.

(** Decimal digits of a natural number, as [String(n)] prints them. *)
Fixpoint uintDigits (d : Decimal.uint) : jsstring :=
  match d with
  | Decimal.Nil => []
  | Decimal.D0 d' => 48 :: uintDigits d'
  | Decimal.D1 d' => 49 :: uintDigits d'
  | Decimal.D2 d' => 50 :: uintDigits d'
  | Decimal.D3 d' => 51 :: uintDigits d'
  | Decimal.D4 d' => 52 :: uintDigits d'
  | Decimal.D5 d' => 53 :: uintDigits d'
  | Decimal.D6 d' => 54 :: uintDigits d'
  | Decimal.D7 d' => 55 :: uintDigits d'
  | Decimal.D8 d' => 56 :: uintDigits d'
  | Decimal.D9 d' => 57 :: uintDigits d'
  end.

Definition natDigits (n : N) : jsstring := uintDigits (N.to_uint n).

(** The value of a run of decimal digits. *)
Definition digitsValue (ds : jsstring) : N :=
  fold_left (fun acc d => 10 * acc + (d - 48)) ds 0.

(** ** Numbers and values *)

(** A number of the runtime: a double, written as the exact decimal
    [m / 10^e] that it is, an infinity, or NaN.  A whole number is written
    with [e = 0].  The two zeros are not told apart. *)
Inductive number :=
  | Fin (m : Z) (e : nat)
  | PosInf
  | NegInf
  | NaN.

(** [x - y] *)
Definition numSub (x y : number) : number :=
  match x, y with
  | NaN, _ | _, NaN => NaN
  | PosInf, PosInf | NegInf, NegInf => NaN
  | PosInf, _ | _, NegInf => PosInf
  | NegInf, _ | _, PosInf => NegInf
  | Fin m1 e1, Fin m2 e2 =>
      Fin (m1 * 10 ^ Z.of_nat e2 - m2 * 10 ^ Z.of_nat e1) (e1 + e2)
  end.

(** What [Array.prototype.sort] makes of the number its comparison function
    returns: negative, positive, or zero; NaN counts as zero. *)
Definition numSign (x : number) : comparison :=
  match x with
  | Fin m _ => (m ?= 0)%Z
  | PosInf => Gt
  | NegInf => Lt
  | NaN => Eq
  end.

(** The values a record holds. *)
Inductive value :=
  | VStr (s : jsstring)
  | VNum (x : number)
  | VNull.

(** A record is a plain object; a property that is not there reads as
    [None], the embedding of [undefined]. *)
Abbreviation record := (gmap jsstring value).

(** [obj[k] = v] for a primitive [v]: an own property is written, except
    under the name [__proto__], whose setter ignores primitives. *)
Definition setProp (k : jsstring) (v : value) (obj : record) : record :=
  if decide (k = js "__proto__") then obj else <[k := v]> obj.

(** Truthiness, as [||] tests it. *)
Definition truthy (v : option value) : bool :=
  match v with
  | Some (VStr s) => negb (Nat.eqb (length s) 0)
  | Some (VNum (Fin m _)) => negb (m =? 0)%Z
  | Some (VNum NaN) => false
  | Some (VNum _) => true
  | Some VNull | None => false
  end.

(** [a || b] *)
Definition orElse (a b : option value) : option value :=
  if truthy a then a else b.

(** [v == null] *)
Definition nullish (v : option value) : bool :=
  match v with
  | None | Some VNull => true
  | Some _ => false
  end.

(** [a ?? b] *)
Definition coalesce (a b : option value) : option value :=
  if nullish a then b else a.

(** ** Outcomes: a returned value or a thrown TypeError *)

Inductive outcome (A : Type) :=
  | Return (a : A)
  | TypeError.
Arguments Return {A} a.
Arguments TypeError {A}.

Definition bind {A B} (m : outcome A) (k : A -> outcome B) : outcome B :=
  match m with
  | Return a => k a
  | TypeError => TypeError
  end.

Notation "'do' x <- m ; k" := (bind m (fun x => k))
  (at level 10, x name, m at level 100, k at level 200).

(** [xs[i]] read in order to use a property of it: throws when the index is
    out of range. *)
Definition element {A} (xs : list A) (i : nat) : outcome A :=
  match xs !! i with
  | Some x => Return x
  | None => TypeError
  end.

(** ** Sorting *)

(** A stable sort by a comparison function, as [Array.prototype.sort] is
    specified for a consistent comparison. *)
Fixpoint insertBy {A} (cmp : A -> A -> comparison) (x : A) (l : list A) : list A :=
  match l with
  | [] => [x]
  | y :: l' =>
      match cmp x y with
      | Gt => y :: insertBy cmp x l'
      | _ => x :: l
      end
  end.

Definition sortBy {A} (cmp : A -> A -> comparison) (l : list A) : list A :=
  foldr (insertBy cmp) [] l.

(** ** Options and shapes *)

Record options := {
  columns : option (list jsstring);
  addId : bool;
  meta : gmap jsstring jsstring
}.

(** [parseInput(text)] without a second argument. *)
Definition defaultOptions : options :=
  {| columns := None; addId := true; meta := ∅ |}.

Inductive format := Md | Tsv | Csv | Spaced.

Definition PIPE : N := 124.
Definition COMMA : N := 44.
Definition HASH : N := 35.
Definition DOT : N := 46.

Definition isBlank (l : jsstring) : bool := Nat.eqb (length (trim l)) 0.

Definition nonEmpty (s : jsstring) : bool := negb (Nat.eqb (length s) 0).

(** [lines.indexOf(x)], -1 when [x] is not there. *)
Fixpoint indexOf (lines : list jsstring) (x : jsstring) : Z :=
  match lines with
  | [] => (-1)%Z
  | l :: rest =>
      if decide (l = x) then 0%Z
      else let i := indexOf rest x in
           if (i <? 0)%Z then (-1)%Z else (i + 1)%Z
  end.

(** [lines.slice(i)] for [i >= 0]. *)
Definition sliceFrom {A} (i : Z) (xs : list A) : list A := drop (Z.to_nat i) xs.

(** ** Matching the two regular expressions of the coercions *)

(** The first position of [s] where [matchAt] succeeds, scanning from the
    left, as [String.prototype.match] does for a non-global expression. *)
Fixpoint search {A} (matchAt : jsstring -> option A) (s : jsstring) : option A :=
  match matchAt s with
  | Some m => Some m
  | None =>
      match s with
      | [] => None
      | _ :: s' => search matchAt s'
      end
  end.

(** [\d+] at the start of [s]: the longest run of digits, if not empty. *)
Definition digitsAt (s : jsstring) : option jsstring :=
  match takeWhile isDigit s with
  | [] => None
  | ds => Some ds
  end.

(** [#?(\d+)] at the start of [s]; the result is the captured group. *)
Definition matchRankAt (s : jsstring) : option jsstring :=
  match s with
  | c :: s' =>
      if c =? HASH then
        match digitsAt s' with
        | Some ds => Some ds
        | None => digitsAt s
        end
      else digitsAt s
  | [] => None
  end.

(** [\d+(\.\d+)?] at the start of [s]; the result is the matched text. *)
Definition unsignedAt (s : jsstring) : option jsstring :=
  match digitsAt s with
  | None => None
  | Some ds =>
      match dropWhile isDigit s with
      | c :: rest =>
          if c =? DOT then
            match digitsAt rest with
            | Some fs => Some (ds ++ DOT :: fs)
            | None => Some ds
            end
          else Some ds
      | [] => Some ds
      end
  end.

(** [-?\d+(\.\d+)?] at the start of [s]; the result is the matched text. *)
Definition matchNumberAt (s : jsstring) : option jsstring :=
  match s with
  | c :: s' =>
      if c =? HYPHEN then
        match unsignedAt s' with
        | Some t => Some (HYPHEN :: t)
        | None => unsignedAt s
        end
      else unsignedAt s
  | [] => None
  end.


(** [s.replace(/\u00a0/g, space)] on one code unit. *)
Definition plainSpace (c : N) : N := if c =? NBSP then SP else c.

(** The action of [toLowerCase] on ASCII text. *)
Definition lowerAscii (s : jsstring) : jsstring := map asciiLower s.

(** ** The conversion *)

Section Conversion.

(** [String.prototype.toLowerCase] *)
Variable toLowerCase : jsstring -> jsstring.

(** The conversion of a string to a number: [Number(s)] in the
    coercions, and what the subtraction in the comparison function of the
    sort applies to a string.  The result is a double: the runtime rounds
    the value of the text, and gives Infinity when it is too large. *)
Variable stringToNumber : jsstring -> number.

(** The conversion of a number to a string: [String(x)], and what a
    template literal applies to a number.  The runtime prints the
    shortest digits that read back as the same double, with an exponent
    from 10^21 on. *)
Variable numberToString : number -> jsstring.

(** Conversion to string inside a template literal, and [String(v)]. *)
Definition toStr (v : option value) : jsstring :=
  match v with
  | None => js "undefined"
  | Some VNull => js "null"
  | Some (VStr s) => s
  | Some (VNum x) => numberToString x
  end.

Definition slugify (s : jsstring) : jsstring :=
  dropWhileEnd (N.eqb HYPHEN)
    (dropWhile (N.eqb HYPHEN)
       (collapseRuns notAlnum HYPHEN
          (List.filter notQuote (trim (toLowerCase s))))).

(** The lines of [text] that are not blank. *)
Definition nonBlankLines (text : jsstring) : list jsstring :=
  List.filter (fun l => negb (isBlank l)) (splitLines text).

Definition detectFormat (text : jsstring) : format :=
  let lines := nonBlankLines text in
  if existsb (fun l => includes l [PIPE] && startsWith (trim l) [PIPE]) lines
  then Md
  else if existsb (fun l => includes l [TAB]) lines then Tsv
  else if existsb (fun l => includes l [COMMA] && negb (includes l [TAB])) lines
  then Csv
  else Spaced.

(** The cells of one line of a markdown table. *)
Definition pipeCells (l : jsstring) : list jsstring :=
  List.filter nonEmpty (map trim (splitOn PIPE l)).

Definition parseMarkdownTable (lines : list jsstring)
  : outcome (option (list jsstring) * list (list jsstring)) :=
  let tableLines := List.filter (fun l => startsWith (trim l) [PIPE]) lines in
  if (length tableLines <? 2)%nat then Return (None, [])
  else
    do first <- element tableLines 0;
    let header := pipeCells first in
    let dataLines := drop 2 tableLines in
    let rows := map pipeCells dataLines in
    Return (Some header, rows).

Definition splitSpacedLine (line : jsstring) : list jsstring :=
  map trim (splitWide false (trim line)).

Definition parseDelimited (lines : list jsstring) (delim : N)
  : list (list jsstring) :=
  map (fun line => map trim (splitOn delim line)) lines.

Definition headerWords : list jsstring :=
  [js "rank"; js "player"; js "name"; js "city"; js "school"; js "type";
   js "rating"].

Definition guessHeader (lines : list jsstring) : option jsstring :=
  List.find
    (fun line =>
       let low := toLowerCase line in
       let hits := length (List.filter (fun w => includes low w) headerWords) in
       (3 <=? hits)%nat)
    (take 25 lines).

Definition normalizeKey (k : jsstring) : jsstring :=
  List.filter isKeyChar
    (collapseRuns isSpace UNDERSCORE (trim (toLowerCase k))).

Definition coerceRank (v : value) : value :=
  match v with
  | VNull => VNull
  | _ =>
      let s := trim (toStr (Some v)) in
      match search matchRankAt s with
      | Some ds => VNum (stringToNumber ds)
      | None => VNull
      end
  end.

Definition coerceNumber (v : value) : value :=
  match v with
  | VNull => VNull
  | _ =>
      let s := trim (toStr (Some v)) in
      match search matchNumberAt s with
      | Some tok => VNum (stringToNumber tok)
      | None => VNull
      end
  end.

(** The lines [parseInput] works on: no-break spaces made plain spaces,
    trailing white space removed, blank lines dropped. *)
Definition linesAll (rawText : jsstring) : list jsstring :=
  List.filter (fun l => negb (isBlank l))
    (map trimEnd
       (splitLines (map plainSpace rawText))).

(** The test [if (headerLine)] on the result of [guessHeader]. *)
Definition foundHeader (lines : list jsstring) : option jsstring :=
  match guessHeader lines with
  | Some headerLine => if nonEmpty headerLine then Some headerLine else None
  | None => None
  end.

(** The four branches on the detected shape, giving [header] and [rows]. *)
Definition extractTable (fmt : format) (lines : list jsstring)
  : outcome (option (list jsstring) * list (list jsstring)) :=
  match fmt with
  | Md => parseMarkdownTable lines
  | Tsv =>
      match foundHeader lines with
      | Some headerLine =>
          let idx := indexOf lines headerLine in
          Return (Some (map trim (splitOn TAB headerLine)),
                  parseDelimited (sliceFrom (idx + 1) lines) TAB)
      | None => Return (None, parseDelimited lines TAB)
      end
  | Csv =>
      match foundHeader lines with
      | Some headerLine =>
          let idx := indexOf lines headerLine in
          Return (Some (map trim (splitOn COMMA headerLine)),
                  parseDelimited (sliceFrom (idx + 1) lines) COMMA)
      | None => Return (None, parseDelimited lines COMMA)
      end
  | Spaced =>
      match foundHeader lines with
      | Some headerLine =>
          let idx := indexOf lines headerLine in
          Return (Some (splitSpacedLine headerLine),
                  map splitSpacedLine (sliceFrom (idx + 1) lines))
      | None => Return (None, map splitSpacedLine lines)
      end
  end.

(** [finalHeader]: the explicit columns if any, else the header found if
    it has a cell, else none. *)
Definition resolveHeader (cols header : option (list jsstring))
  : option (list jsstring) :=
  match cols with
  | Some (c :: cs) => Some (c :: cs)
  | _ =>
      match header with
      | Some (h :: hs) => Some (h :: hs)
      | _ => None
      end
  end.

(** The two [continue] tests at the top of the loop body: does the row
    count as a separator or as junk? *)
Definition skipRow (r : list jsstring) : outcome bool :=
  let joined := toLowerCase (join [SP] r) in
  if includes joined (js "---") then Return true
  else if (length r =? 1)%nat then
    do cell <- element r 0;
    Return (length cell <? 2)%nat
  else Return false.

(** [obj[normalizeKey(finalHeader[i])] = r[i] ?? empty], for each [i]
    below the length of the header. *)
Fixpoint assignHeader (hs r : list jsstring) (obj : record) : record :=
  match hs with
  | [] => obj
  | h :: hs' =>
      assignHeader hs' (tail r)
        (setProp (normalizeKey h) (VStr (default [] (head r))) obj)
  end.

(** [obj[`col${i + 1}`] = r[i]], for each [i] below the length of the
    row; [i] is the index of the first cell of [r]. *)
Fixpoint assignColumns (i : nat) (r : list jsstring) (obj : record) : record :=
  match r with
  | [] => obj
  | c :: r' =>
      assignColumns (S i) r'
        (setProp (js "col" ++ natDigits (N.of_nat (i + 1))) (VStr c) obj)
  end.

Definition assignKeys (finalHeader : option (list jsstring)) (r : list jsstring)
  : record :=
  match finalHeader with
  | Some hs => assignHeader hs r ∅
  | None => assignColumns 0 r ∅
  end.

(** The coercions of the keys [rank] and [rating]. *)
Definition coerceFields (obj : record) : record :=
  let obj1 :=
    match obj !! js "rank" with
    | Some v => setProp (js "rank") (coerceRank v) obj
    | None => obj
    end in
  match obj1 !! js "rating" with
  | Some v => setProp (js "rating") (coerceNumber v) obj1
  | None => obj1
  end.

(** [obj.player || obj.name || obj.full_name || obj.col2 || obj.col1 || row] *)
Definition idBase (obj : record) : option value :=
  orElse (obj !! js "player")
    (orElse (obj !! js "name")
       (orElse (obj !! js "full_name")
          (orElse (obj !! js "col2")
             (orElse (obj !! js "col1") (Some (VStr (js "row"))))))).

(** The automatic identifier; [produced] is [results.length]. *)
Definition attachId (produced : nat) (obj : record) : record :=
  let base := idBase obj in
  let suffix :=
    coalesce (obj !! js "rank")
      (Some (VNum (Fin (Z.of_nat (produced + 1)) 0))) in
  setProp (js "id") (VStr (slugify (toStr base ++ [HYPHEN] ++ toStr suffix))) obj.

(** [for (const [k, v] of Object.entries(meta)) obj[k] = v] *)
Definition attachMeta (m : gmap jsstring jsstring) (obj : record) : record :=
  map_fold (fun k v o => setProp k (VStr v) o) obj m.

(** The record pushed for a row that is kept. *)
Definition buildRecord (finalHeader : option (list jsstring)) (opts : options)
    (produced : nat) (r : list jsstring) : record :=
  let obj := coerceFields (assignKeys finalHeader r) in
  let obj := if addId opts then attachId produced obj else obj in
  attachMeta (meta opts) obj.

(** The loop over the rows; [results] holds the records pushed so far. *)
Fixpoint processRows (finalHeader : option (list jsstring)) (opts : options)
    (rows : list (list jsstring)) (results : list record)
  : outcome (list record) :=
  match rows with
  | [] => Return results
  | r :: rest =>
      do skip <- skipRow r;
      if skip then processRows finalHeader opts rest results
      else processRows finalHeader opts rest
             (results ++ [buildRecord finalHeader opts (length results) r])
  end.

Definition SENTINEL : option value := Some (VNum (Fin 999999 0)).

(** Conversion of an operand of [-] to a number. *)
Definition toNumber (v : option value) : number :=
  match v with
  | Some (VNum x) => x
  | Some (VStr s) => stringToNumber s
  | Some VNull => Fin 0 0
  | None => NaN
  end.

(** [(a, b) => (a.rank ?? 999999) - (b.rank ?? 999999)], read by the sort. *)
Definition compareRank (a b : record) : comparison :=
  numSign
    (numSub (toNumber (coalesce (a !! js "rank") SENTINEL))
            (toNumber (coalesce (b !! js "rank") SENTINEL))).

(** The final step: sort by rank when the first record has one. *)
Definition sortResults (results : list record) : outcome (list record) :=
  if (0 <? length results)%nat then
    do first <- element results 0;
    if nullish (first !! js "rank") then Return results
    else Return (sortBy compareRank results)
  else Return results.

Definition parseInput (rawText : jsstring) (opts : options)
  : outcome (list record) :=
  let lines := linesAll rawText in
  let fmt := detectFormat rawText in
  do table <- extractTable fmt lines;
  let finalHeader := resolveHeader (columns opts) (fst table) in
  do results <- processRows finalHeader opts (snd table) [];
  sortResults results.

End Conversion.

(** ** Reference formulations

    The behaviours the properties below compare the code with. *)

(** Slugification of a lowercased text in three steps: straight quotes
    removed, every run outside [a-z0-9] made one hyphen, hyphens trimmed at
    both ends. *)
Definition slugWords (t : jsstring) : jsstring :=
  dropWhileEnd (N.eqb HYPHEN)
    (dropWhile (N.eqb HYPHEN)
       (collapseRuns notAlnum HYPHEN (List.filter notQuote t))).

(** The curly quotes U+2018, U+2019, U+201C and U+201D. *)
Definition isCurlyQuote (c : N) : bool :=
  (c =? 8216) || (c =? 8217) || (c =? 8220) || (c =? 8221).

(** The same three steps when curly quotes are removed with the straight
    ones. *)
Definition slugWordsCurly (t : jsstring) : jsstring :=
  dropWhileEnd (N.eqb HYPHEN)
    (dropWhile (N.eqb HYPHEN)
       (collapseRuns notAlnum HYPHEN
          (List.filter (fun c => notQuote c && negb (isCurlyQuote c)) t))).

(** The characters of a slug: [a-z0-9] and the hyphen. *)
Definition slugChar (c : N) : bool := isAlnum c || (HYPHEN =? c).

(** A slug is made of [a-z0-9] and single hyphens, none of them first or
    last. *)
Definition slugShape (out : jsstring) : Prop :=
  forallb slugChar out = true
  /\ includes out [HYPHEN; HYPHEN] = false
  /\ head out <> Some HYPHEN
  /\ last out <> Some HYPHEN.

(** The three tests of the detection chain on one line. *)
Definition isTableLine (l : jsstring) : bool :=
  includes l [PIPE] && startsWith (trim l) [PIPE].
Definition hasTab (l : jsstring) : bool := includes l [TAB].
Definition hasComma (l : jsstring) : bool := includes l [COMMA].

(** The chain with the third test reading: some line has a comma. *)
Definition detectChain (lines : list jsstring) : format :=
  if existsb isTableLine lines then Md
  else if existsb hasTab lines then Tsv
  else if existsb hasComma lines then Csv
  else Spaced.

(** The chain with the third test reading: some line has a comma and the
    whole text has no tab. *)
Definition detectChainGlobalTab (text : jsstring) : format :=
  let lines := nonBlankLines text in
  if existsb isTableLine lines then Md
  else if existsb hasTab lines then Tsv
  else if existsb hasComma lines && negb (includes text [TAB]) then Csv
  else Spaced.

Definition notDigit (c : N) : bool := negb (isDigit c).

(** The decimal [m / 10^e] without zeros at the end of its fraction. *)
Fixpoint normalDecimal (m : Z) (e : nat) : number :=
  match e with
  | O => Fin m 0
  | S e' => if (m mod 10 =? 0)%Z then normalDecimal (m / 10) e' else Fin m e
  end.

(** The exact value of a text matched by [matchNumberAt]: the digits
    without the point, scaled by the number of digits after it. *)
Definition decimalValue (tok : jsstring) : number :=
  let neg := startsWith tok [HYPHEN] in
  let body := if neg then tail tok else tok in
  let whole := takeWhile isDigit body in
  let frac := tail (dropWhile isDigit body) in
  let m := Z.of_N (digitsValue (whole ++ frac)) in
  normalDecimal (if neg then - m else m)%Z (length frac).

(** A decimal that is a double for sure: [k / 2^e] for a whole [k] of at
    most 53 bits and [e] up to 1074.  The runtime converts a text of such a
    value without rounding. *)
Definition exactDouble (x : number) : bool :=
  match x with
  | Fin m e =>
      (m mod 5 ^ Z.of_nat e =? 0)%Z
      && (Z.abs (m / 5 ^ Z.of_nat e) <=? 2 ^ 53)%Z
      && (e <=? 1074)%nat
  | _ => false
  end.

(** The first run of digits of a text. *)
Definition firstDigitRun (s : jsstring) : option jsstring :=
  match dropWhile notDigit s with
  | [] => None
  | rest => Some (takeWhile isDigit rest)
  end.

(** The digits at the start of [rest], with the point and the digits after
    it when there are some. *)
Definition numeral (rest : jsstring) : jsstring :=
  takeWhile isDigit rest ++
  match dropWhile isDigit rest with
  | c :: after =>
      if (c =? DOT) && negb (Nat.eqb (length (takeWhile isDigit after)) 0)
      then DOT :: takeWhile isDigit after
      else []
  | [] => []
  end.

(** The first numeric token of a text: the numeral at the first digit,
    with the hyphen right before it if there is one. *)
Definition firstNumericToken (s : jsstring) : option jsstring :=
  match dropWhile notDigit s with
  | [] => None
  | rest =>
      let sign :=
        match last (takeWhile notDigit s) with
        | Some c => if c =? HYPHEN then [HYPHEN] else []
        | None => []
        end in
      Some (sign ++ numeral rest)
  end.

(** The fields the identifier is based on, in order. *)
Definition idSources : list jsstring :=
  [js "player"; js "name"; js "full_name"; js "col2"; js "col1"].

(** The first of the fields [keys] of [obj] that holds a non-empty string,
    else [fallback]. *)
Fixpoint firstNonEmptyField (obj : record) (keys : list jsstring)
    (fallback : jsstring) : jsstring :=
  match keys with
  | [] => fallback
  | k :: rest =>
      match obj !! k with
      | Some (VStr (c :: s)) => c :: s
      | _ => firstNonEmptyField obj rest fallback
      end
  end.

(** A value that is a string. *)
Definition isString (v : value) : Prop :=
  match v with
  | VStr _ => True
  | _ => False
  end.

(** A property read as a string or not there at all. *)
Definition stringOrAbsent (o : option value) : Prop :=
  match o with
  | Some v => isString v
  | None => True
  end.

(** The rows the filter discards: the lowercased cells joined by a space
    contain three hyphens in a row, or the row is a single cell of fewer
    than two characters. *)
Definition isJunk (toLowerCase : jsstring -> jsstring) (r : list jsstring) : bool :=
  includes (toLowerCase (join [SP] r)) (js "---")
  || match r with
     | [cell] => (length cell <? 2)%nat
     | _ => false
     end.

(** Every finite number of the runtime is below 2^1024. *)
Definition OVERFLOW : Z := 2 ^ 1024.

(** The rank a record is sorted by: its rank when it is a whole number,
    2^1024 when it is Infinity (which the subtraction puts above every
    finite number and level with itself), and the sentinel when it has
    none.  A rank that is a string can only come from the metadata and is
    then the same in all records; it is given the sentinel as well. *)
Definition rankKey (r : record) : Z :=
  match r !! js "rank" with
  | Some (VNum (Fin m 0)) => m
  | Some (VNum PosInf) => OVERFLOW
  | _ => 999999%Z
  end.

(** A record whose rank, if it has one, is null or what a run of digits is
    converted to: a whole number from 0 to below 2^1024, or Infinity. *)
Definition digitRank (r : record) : Prop :=
  match r !! js "rank" with
  | None | Some VNull | Some (VNum PosInf) => True
  | Some (VNum (Fin m 0)) => (0 <= m < OVERFLOW)%Z
  | _ => False
  end.

(** A record whose rank, if it has one, is null or a whole number. *)
Definition wholeRank (r : record) : Prop :=
  match r !! js "rank" with
  | None | Some VNull | Some (VNum (Fin _ 0)) => True
  | _ => False
  end.

(** The order of two elements by their keys. *)
Definition keyLe {A} (key : A -> Z) (a b : A) : Prop := (key a <= key b)%Z.

(** What the final step makes of the produced sequence [rs]: when the first
    record has a rank, [out] is [rs] sorted by [rankKey], records of equal
    key staying in their order, so that a record without rank is followed
    only by records ranked 999999 or more; otherwise [out] is [rs]. *)
Definition sortedByRank (rs out : list record) : Prop :=
  match rs with
  | [] => out = []
  | first :: _ =>
      if nullish (first !! js "rank") then out = rs
      else out ≡ₚ rs
           /\ StronglySorted (keyLe rankKey) out
           /\ (forall z,
                  List.filter (fun a => rankKey a =? z)%Z out
                  = List.filter (fun a => rankKey a =? z)%Z rs)
           /\ (forall (i j : nat) (a b : record),
                  out !! i = Some a -> out !! j = Some b -> (i < j)%nat ->
                  nullish (a !! js "rank") = true ->
                  (999999 <= rankKey b)%Z)
  end.

(** Records without a rank come after every record that has one; read on
    the sequence of the ranks. *)
Definition ranklessLast (out : list record) : Prop :=
  let ranks := map (fun r : record => r !! js "rank") out in
  forall (i j : nat) (x y : option value),
    ranks !! i = Some x -> ranks !! j = Some y ->
    nullish x = true -> nullish y = false ->
    (j < i)%nat.

(** The ranks of the records returned, in order. *)
Definition ranksOf (result : outcome (list record)) : list (option value) :=
  match result with
  | Return out => map (fun r : record => r !! js "rank") out
  | TypeError => []
  end.

(** A line as the conversion sees it: no-break spaces made plain, trailing
    white space removed. *)
Definition cleanLine (l : jsstring) : jsstring := trimEnd (map plainSpace l).

(** The text is a markdown table: its non-blank lines are a header line, a
    separator line and data rows, each starting with a bar once trimmed. *)
Definition markdownTable (text h sep : jsstring) (data : list jsstring) : Prop :=
  nonBlankLines text = h :: sep :: data
  /\ Forall (fun l => startsWith (trim l) [PIPE] = true) (h :: sep :: data).

(** ** Sample inputs *)

(** Stand-ins for the two conversions of the runtime between strings and
    numbers, for the instances below.  They do no rounding: [plainNumber]
    gives the exact value of a numeric text, Infinity from 2^1024 on, and
    NaN for any other text; [plainDigits] prints all the digits of a number
    and no exponent.  [plainNumber] is the conversion of the runtime
    wherever the value of the text is a double, and [plainDigits] on whole
    numbers up to 2^53; elsewhere the runtime rounds, or prints fewer
    digits or an exponent. *)
Definition overflow (x : number) : number :=
  match x with
  | Fin m e =>
      if (OVERFLOW * 10 ^ Z.of_nat e <=? m)%Z then PosInf
      else if (m <=? - (OVERFLOW * 10 ^ Z.of_nat e))%Z then NegInf
      else x
  | _ => x
  end.

Definition plainNumber (s : jsstring) : number :=
  match matchNumberAt s with
  | Some t => if decide (t = s) then overflow (decimalValue s) else NaN
  | None => NaN
  end.

Definition padZeros (width : nat) (ds : jsstring) : jsstring :=
  replicate (width - length ds) 48 ++ ds.

Definition plainDigits (x : number) : jsstring :=
  match x with
  | NaN => js "NaN"
  | PosInf => js "Infinity"
  | NegInf => js "-Infinity"
  | Fin m e =>
      let a := Z.abs_N m in
      let p := 10 ^ N.of_nat e in
      let frac := a mod p in
      (if (m <? 0)%Z then [HYPHEN] else [])
      ++ natDigits (a / p)
      ++ (if frac =? 0 then []
          else 46 :: dropWhileEnd (N.eqb 48) (padZeros e (natDigits frac)))
  end.

Definition textOf (lines : list jsstring) : jsstring := join [LF] lines.

(** A table of one column: two data rows of one character each. *)
Definition singleColumnTable : jsstring :=
  textOf [js "| Rank |"; js "| --- |"; js "| 1 |"; js "| 2 |"].

(** A table of two columns, in the order 3, 1. *)
Definition rankedTable : jsstring :=
  textOf [js "| Rank | Player |"; js "| --- | --- |"; js "| 3 | Al |";
          js "| 1 | Bo |"].

(** Comma-separated lines: a rank above the sentinel, then no rank. *)
Definition millionText : jsstring :=
  textOf [js "rank,name,city"; js "1000000,Al,X"; js "none,Bob,Y"].

(** A name written with the curly apostrophe U+2019. *)
Definition curlyName : jsstring := js "O" ++ [8217] ++ js "Brien".

(** A comma-separated line followed by a line holding only a tab. *)
Definition commaThenBlankTab : jsstring := js "a,b" ++ [LF; TAB].

(** Records holding only a rank. *)
Definition ranked (n : Z) : record := {[ js "rank" := VNum (Fin n 0) ]}.
Definition rankless : record := {[ js "rank" := VNull ]}.

(** Options whose metadata sets the key id. *)
Definition idMetaOptions : options :=
  {| columns := None; addId := true; meta := {[ js "id" := js "x1" ]} |}.

(** ** The command line (bin/ranklist.js)

    The functions that read [process.argv] for the options [main] hands to
    [parseInput]. *)

(** [getArg(flag)]: the argument after the first occurrence of the flag. *)
Definition getArg (argv : list jsstring) (flag : jsstring) : option jsstring :=
  let idx := indexOf argv flag in
  if (idx =? -1)%Z then None else argv !! Z.to_nat (idx + 1).

(** [pair.indexOf(c)] for a one-character [c], -1 when it is not there. *)
Fixpoint charIndex (c : N) (s : jsstring) : Z :=
  match s with
  | [] => (-1)%Z
  | d :: s' =>
      if d =? c then 0%Z
      else let i := charIndex c s' in
           if (i <? 0)%Z then (-1)%Z else (i + 1)%Z
  end.

Definition EQUALS : N := 61.

(** The body of the loop of [getMetaArgs] for one [key=value] pair. *)
Definition addMetaPair (pair : jsstring) (meta : gmap jsstring jsstring)
  : gmap jsstring jsstring :=
  let eq := charIndex EQUALS pair in
  if (0 <? eq)%Z then
    let k := trim (take (Z.to_nat eq) pair) in
    let v := trim (drop (Z.to_nat (eq + 1)) pair) in
    if nonEmpty k
    then (if decide (k = js "__proto__") then meta else <[k := v]> meta)
    else meta
  else meta.

(** The loop of [getMetaArgs] from some index on; [argv] is what is left
    of the arguments and [meta] the object built so far. *)
Fixpoint metaArgsFrom (argv : list jsstring) (meta : gmap jsstring jsstring)
  : gmap jsstring jsstring :=
  match argv with
  | [] => meta
  | a :: rest =>
      metaArgsFrom rest
        (if decide (a = js "--meta")
         then addMetaPair (default [] (head rest)) meta
         else meta)
  end.

Definition getMetaArgs (argv : list jsstring) : gmap jsstring jsstring :=
  metaArgsFrom argv ∅.

(** What [getMetaArgs] keeps true of the object it builds: a key is not
    empty, has no white space around it, no equals sign in it and is not
    [__proto__]; a value has no white space around it. *)
Definition cleanPair (k v : jsstring) : Prop :=
  k <> [] /\ trim k = k /\ ~ In EQUALS k /\ k <> js "__proto__" /\ trim v = v.

(** The list of columns [main] makes of the argument of [--columns]. *)
Definition columnsOf (columnsArg : option jsstring) : option (list jsstring) :=
  match columnsArg with
  | Some (c :: s) => Some (List.filter nonEmpty (map trim (splitOn COMMA (c :: s))))
  | _ => None
  end.

(** ** More reference formulations *)

(** A line without line break characters. *)
Definition noBreak (l : jsstring) : bool :=
  forallb (fun c => negb (c =? LF) && negb (c =? CR)) l.

(** The number of occurrences of a code unit. *)
Definition occurrences (d : N) (s : jsstring) : nat :=
  length (List.filter (N.eqb d) s).



(** The test of [guessHeader] on one line: at least three of the header
    words occur in the lowercased line. *)
Definition headerLike (toLowerCase : jsstring -> jsstring) (line : jsstring) : bool :=
  let low := toLowerCase line in
  let hits := length (List.filter (fun w => includes low w) headerWords) in
  (3 <=? hits)%nat.

(** The positional key of the cell of index [i]. *)
Definition colKey (i : nat) : jsstring := js "col" ++ natDigits (N.of_nat (i + 1)).

(** What a finished record may hold under a key: under rank, null, a
    whole number that is not negative, or Infinity; under rating, null or a
    number; under another key, a string. *)
Definition fieldType (k : jsstring) (v : value) : Prop :=
  if decide (k = js "rank") then
    match v with
    | VNull | VNum PosInf => True
    | VNum (Fin n 0) => (0 <= n)%Z
    | _ => False
    end
  else if decide (k = js "rating") then
    match v with
    | VNull | VNum _ => True
    | VStr _ => False
    end
  else isString v.

(** Sample command lines and lines. *)
Definition sampleArgv : list jsstring :=
  [js "node"; js "ranklist"; js "--in"; js "a.txt"; js "--meta"; js "state=CT"].

Definition titledLines : list jsstring :=
  [js "Top players 2027"; js "Rank,Player,City"; js "1,Al,Old Greenwich"].

(** The keys the cells of a row are stored under: the normalized header
    names, or the positional keys of the cells when there is no header. *)
Definition fieldKeys (toLowerCase : jsstring -> jsstring)
    (finalHeader : option (list jsstring)) (r : list jsstring) : list jsstring :=
  match finalHeader with
  | Some hs => map (normalizeKey toLowerCase) hs
  | None => map colKey (seq 0 (length r))
  end.

(** * Properties *)

(** ** Character classes *)

Ltac unfold_classes :=
  unfold isKeyChar, isAlnum, isDigit, isSpace, isQuote, isAscii,
    inRange, HYPHEN, UNDERSCORE, SP, NBSP, TAB, LF, CR, PIPE, COMMA, HASH, DOT in *.

(** Turn a boolean hypothesis on a code unit into arithmetic. *)
Ltac arith_of H :=
  rewrite ?orb_true_iff, ?andb_true_iff, ?N.leb_le, ?N.eqb_eq, ?N.ltb_lt in H.

(** [b = false] from the arithmetic reading of [b = true]. *)
Ltac refute_class :=
  let H := fresh "H" in
  apply not_true_iff_false; intro H; unfold_classes;
  repeat match goal with
    | H' : _ = true |- _ => arith_of H'
    | H' : N.eqb _ _ = false |- _ => apply N.eqb_neq in H'
    end;
  lia.

Lemma space_not_alnum c : isSpace c = true -> isAlnum c = false.
Proof. intros; refute_class. Qed.

Lemma space_not_quote c : isSpace c = true -> isQuote c = false.
Proof. intros; refute_class. Qed.

Lemma keyChar_not_space c : isKeyChar c = true -> isSpace c = false.
Proof. intros; refute_class. Qed.

Lemma keyChar_ascii c : isKeyChar c = true -> isAscii c = true.
Proof. unfold_classes. intros H. arith_of H. apply N.ltb_lt. lia. Qed.

Lemma keyChar_lower c : isKeyChar c = true -> asciiLower c = c.
Proof.
  unfold asciiLower. intros H.
  assert (inRange 65 90 c = false) as -> by refute_class.
  reflexivity.
Qed.

Lemma alnum_not_hyphen c : isAlnum c = true -> N.eqb HYPHEN c = false.
Proof. intros; refute_class. Qed.

(** ** Trimming and collapsing *)

Lemma startsWith_nil s : startsWith s [] = true.
Proof. destruct s; reflexivity. Qed.

Lemma forallb_cons_inv (p : N -> bool) c s :
  forallb p (c :: s) = true -> p c = true /\ forallb p s = true.
Proof. simpl. intros H. apply andb_true_iff in H. exact H. Qed.

Lemma filter_all (p : N -> bool) s : forallb p s = true -> List.filter p s = s.
Proof.
  induction s as [|c s IH]; simpl; [reflexivity|].
  intros H. apply andb_true_iff in H as [Hc Hs].
  rewrite Hc, IH by assumption. reflexivity.
Qed.

Lemma forallb_filter (p : N -> bool) s : forallb p (List.filter p s) = true.
Proof.
  induction s as [|c s IH]; simpl; [reflexivity|].
  destruct (p c) eqn:Hc; simpl; [rewrite Hc|]; assumption.
Qed.

Lemma dropWhile_none (p : N -> bool) s :
  forallb (fun c => negb (p c)) s = true -> dropWhile p s = s.
Proof.
  destruct s as [|c s]; simpl; [reflexivity|].
  intros H. apply andb_true_iff in H as [Hc _].
  apply negb_true_iff in Hc. rewrite Hc. reflexivity.
Qed.

Lemma dropWhileEnd_none (p : N -> bool) s :
  forallb (fun c => negb (p c)) s = true -> dropWhileEnd p s = s.
Proof.
  induction s as [|c s IH]; simpl; [reflexivity|].
  intros H. apply andb_true_iff in H as [Hc Hs].
  apply negb_true_iff in Hc. rewrite IH, Hc by assumption.
  destruct s; reflexivity.
Qed.

Lemma collapseFrom_none (p : N -> bool) rep b s :
  forallb (fun c => negb (p c)) s = true -> collapseFrom p rep b s = s.
Proof.
  revert b. induction s as [|c s IH]; simpl; intros b H; [reflexivity|].
  apply andb_true_iff in H as [Hc Hs].
  apply negb_true_iff in Hc. rewrite Hc, IH by assumption. reflexivity.
Qed.

Lemma trim_none s :
  forallb (fun c => negb (isSpace c)) s = true -> trim s = s.
Proof.
  intros H. unfold trim. rewrite dropWhile_none by assumption.
  apply dropWhileEnd_none; assumption.
Qed.

Lemma forallb_impl (p q : N -> bool) s :
  (forall c, p c = true -> q c = true) ->
  forallb p s = true -> forallb q s = true.
Proof.
  intros Hpq. induction s as [|c s IH]; simpl; [reflexivity|].
  intros H. apply andb_true_iff in H as [Hc Hs].
  rewrite (Hpq _ Hc), IH by assumption. reflexivity.
Qed.

(** [dropWhileEnd] of a string with one more code unit in front depends on
    that code unit and on [dropWhileEnd] of the rest only. *)
Lemma dropWhileEnd_cons_congr (p : N -> bool) c s1 s2 :
  dropWhileEnd p s1 = dropWhileEnd p s2 ->
  dropWhileEnd p (c :: s1) = dropWhileEnd p (c :: s2).
Proof. simpl. intros ->. reflexivity. Qed.

Lemma dropWhile_dropWhileEnd (p : N -> bool) s :
  dropWhile p (dropWhileEnd p s) = dropWhileEnd p (dropWhile p s).
Proof.
  induction s as [|c s IH]; [reflexivity|].
  cbn [dropWhile]. destruct (p c) eqn:Hc.
  - rewrite <- IH. cbn [dropWhileEnd]. rewrite Hc.
    destruct (dropWhileEnd p s) as [|d r]; [reflexivity|].
    cbn [dropWhile]. rewrite Hc. reflexivity.
  - cbn [dropWhileEnd]. rewrite Hc.
    destruct (dropWhileEnd p s); cbn [dropWhile]; rewrite Hc; reflexivity.
Qed.

Section Collapse.

(** The class collapsed and its replacement. *)
Variable p : N -> bool.
Variable rep : N.

Lemma dropWhile_collapseFrom b s :
  dropWhile (N.eqb rep) (collapseFrom p rep b s)
  = dropWhile (N.eqb rep) (collapseFrom p rep true s).
Proof.
  destruct s as [|c s]; [reflexivity|]. cbn [collapseFrom].
  destruct (p c) eqn:Hc; [|reflexivity].
  destruct b; [reflexivity|].
  cbn [dropWhile]. rewrite N.eqb_refl. reflexivity.
Qed.

Lemma dropWhileEnd_collapseFrom_congr c b s1 s2 :
  (forall b', dropWhileEnd (N.eqb rep) (collapseFrom p rep b' s1)
              = dropWhileEnd (N.eqb rep) (collapseFrom p rep b' s2)) ->
  dropWhileEnd (N.eqb rep) (collapseFrom p rep b (c :: s1))
  = dropWhileEnd (N.eqb rep) (collapseFrom p rep b (c :: s2)).
Proof.
  intros H. cbn [collapseFrom]. destruct (p c); [destruct b|].
  - apply H.
  - apply dropWhileEnd_cons_congr, H.
  - apply dropWhileEnd_cons_congr, H.
Qed.

End Collapse.

(** White space at either end of a string does not change what remains once
    quotes are removed, runs outside [a-z0-9] collapsed, and hyphens
    trimmed. *)

Lemma space_kept c : isSpace c = true -> notQuote c = true.
Proof. intros H. unfold notQuote. rewrite space_not_quote; auto. Qed.

Lemma space_collapsed c : isSpace c = true -> notAlnum c = true.
Proof. intros H. unfold notAlnum. rewrite space_not_alnum; auto. Qed.

Lemma hyphens_after_trailing_space b s :
  dropWhileEnd (N.eqb HYPHEN)
    (collapseFrom notAlnum HYPHEN b (List.filter notQuote (dropWhileEnd isSpace s)))
  = dropWhileEnd (N.eqb HYPHEN)
      (collapseFrom notAlnum HYPHEN b (List.filter notQuote s)).
Proof.
  revert b. induction s as [|c s IH]; intros b; [reflexivity|].
  cbn [dropWhileEnd].
  destruct (dropWhileEnd isSpace s) as [|d r] eqn:Hd.
  - destruct (isSpace c) eqn:Hc.
    + cbn [List.filter]. rewrite (space_kept _ Hc).
      rewrite <- (dropWhileEnd_collapseFrom_congr notAlnum HYPHEN c b _ _ IH).
      cbn. rewrite (space_collapsed _ Hc). destruct b; reflexivity.
    + cbn [List.filter]. destruct (notQuote c).
      * apply dropWhileEnd_collapseFrom_congr, IH.
      * apply IH.
  - cbn [List.filter]. destruct (notQuote c).
    + apply dropWhileEnd_collapseFrom_congr, IH.
    + apply IH.
Qed.

Lemma hyphens_after_leading_space s :
  dropWhile (N.eqb HYPHEN)
    (collapseFrom notAlnum HYPHEN false (List.filter notQuote (dropWhile isSpace s)))
  = dropWhile (N.eqb HYPHEN)
      (collapseFrom notAlnum HYPHEN false (List.filter notQuote s)).
Proof.
  induction s as [|c s IH]; [reflexivity|].
  cbn [dropWhile]. destruct (isSpace c) eqn:Hc; [|reflexivity].
  rewrite IH. cbn [List.filter]. rewrite (space_kept _ Hc).
  cbn [collapseFrom]. rewrite (space_collapsed _ Hc).
  cbn [dropWhile]. rewrite N.eqb_refl.
  rewrite (dropWhile_collapseFrom _ _ false). reflexivity.
Qed.

(** ** The shape of what collapsing and trimming leave *)

Lemma dropWhile_head (p : N -> bool) s c :
  head (dropWhile p s) = Some c -> p c = false.
Proof.
  induction s as [|d s IH]; [discriminate|].
  cbn [dropWhile]. destruct (p d) eqn:Hd; [exact IH|].
  cbn. intros [= <-]. exact Hd.
Qed.

Lemma dropWhileEnd_head (p : N -> bool) s :
  dropWhileEnd p s = [] \/ head (dropWhileEnd p s) = head s.
Proof.
  destruct s as [|c s]; [left; reflexivity|].
  cbn [dropWhileEnd]. destruct (dropWhileEnd p s).
  - destruct (p c); [left | right]; reflexivity.
  - right. reflexivity.
Qed.

Lemma dropWhileEnd_last (p : N -> bool) s c :
  last (dropWhileEnd p s) = Some c -> p c = false.
Proof.
  induction s as [|d s IH]; [discriminate|].
  cbn [dropWhileEnd]. destruct (dropWhileEnd p s) as [|e r].
  - destruct (p d) eqn:Hd; [discriminate|]. cbn. intros [= <-]. exact Hd.
  - intros H. apply IH. exact H.
Qed.

Lemma forallb_dropWhile (q p : N -> bool) s :
  forallb q s = true -> forallb q (dropWhile p s) = true.
Proof.
  induction s as [|c s IH]; [auto|].
  intros H. cbn [dropWhile]. destruct (p c); [|exact H].
  apply forallb_cons_inv in H as [_ H]. auto.
Qed.

Lemma forallb_dropWhileEnd (q p : N -> bool) s :
  forallb q s = true -> forallb q (dropWhileEnd p s) = true.
Proof.
  induction s as [|c s IH]; [auto|].
  intros H. apply forallb_cons_inv in H as [Hc Hs].
  cbn [dropWhileEnd]. specialize (IH Hs).
  destruct (dropWhileEnd p s) as [|e r].
  - destruct (p c); [reflexivity|]. cbn. rewrite Hc. reflexivity.
  - cbn [forallb] in *. rewrite Hc. exact IH.
Qed.

(** No two hyphens in a row, read off the first two code units. *)
Lemma no_double_cons c s :
  includes (c :: s) [HYPHEN; HYPHEN] = false
  <-> (HYPHEN =? c) && match s with d :: _ => HYPHEN =? d | [] => false end = false
      /\ includes s [HYPHEN; HYPHEN] = false.
Proof.
  cbn [includes startsWith]. rewrite orb_false_iff.
  destruct s as [|d t]; cbn [startsWith]; [rewrite andb_false_r; tauto|].
  rewrite startsWith_nil, andb_true_r. tauto.
Qed.

Lemma no_double_dropWhile (p : N -> bool) s :
  includes s [HYPHEN; HYPHEN] = false ->
  includes (dropWhile p s) [HYPHEN; HYPHEN] = false.
Proof.
  induction s as [|c s IH]; [auto|].
  intros H. cbn [dropWhile]. destruct (p c); [|exact H].
  apply no_double_cons in H as [_ H]. auto.
Qed.

Lemma no_double_dropWhileEnd (p : N -> bool) s :
  includes s [HYPHEN; HYPHEN] = false ->
  includes (dropWhileEnd p s) [HYPHEN; HYPHEN] = false.
Proof.
  induction s as [|c s IH]; [auto|].
  intros H. apply no_double_cons in H as [Hc Hs]. specialize (IH Hs).
  cbn [dropWhileEnd].
  destruct (dropWhileEnd_head p s) as [Hnil|Hhead].
  - rewrite Hnil. destruct (p c); [reflexivity|].
    apply no_double_cons. rewrite andb_false_r. auto.
  - destruct (dropWhileEnd p s) as [|e r] eqn:He.
    + destruct (p c); [reflexivity|].
      apply no_double_cons. rewrite andb_false_r. auto.
    + apply no_double_cons. split; [|exact IH].
      destruct s as [|d t]; [discriminate|].
      cbn in Hhead. injection Hhead as ->. exact Hc.
Qed.

(** Collapsing the runs outside [a-z0-9] leaves slug characters, no two
    hyphens in a row, and no hyphen first when the scan starts inside a
    run. *)
Lemma collapse_shape b s :
  let out := collapseFrom notAlnum HYPHEN b s in
  forallb slugChar out = true
  /\ includes out [HYPHEN; HYPHEN] = false
  /\ (b = true -> head out <> Some HYPHEN).
Proof.
  revert b. induction s as [|c s IH]; intros b; cbn zeta.
  - cbn. repeat split; auto; discriminate.
  - cbn [collapseFrom].
    assert (notAlnum c = negb (isAlnum c)) as -> by reflexivity.
    destruct (isAlnum c) eqn:Hc; cbn [negb].
    + destruct (IH false) as (Hf & Hd & _). repeat split.
      * cbn [forallb]. unfold slugChar at 1. rewrite Hc. exact Hf.
      * apply no_double_cons. rewrite (alnum_not_hyphen _ Hc). auto.
      * intros _. cbn. intros [= ->]. discriminate.
    + destruct (IH true) as (Hf & Hd & Hh). specialize (Hh eq_refl).
      destruct b; [repeat split; auto|]. repeat split.
      * cbn [forallb]. exact Hf.
      * apply no_double_cons. split; [|exact Hd].
        destruct (collapseFrom notAlnum HYPHEN true s) as [|d t];
          [apply andb_false_r|].
        cbn in Hh. destruct (N.eqb_spec HYPHEN d) as [<-|]; [|apply andb_false_r].
        contradiction Hh. reflexivity.
      * discriminate.
Qed.

Lemma slugWords_shape t : slugShape (slugWords t).
Proof.
  unfold slugWords, collapseRuns.
  destruct (collapse_shape false (List.filter notQuote t)) as (Hf & Hd & _).
  cbn zeta in Hf, Hd.
  set (z := collapseFrom notAlnum HYPHEN false (List.filter notQuote t)) in *.
  repeat split.
  - apply forallb_dropWhileEnd, forallb_dropWhile, Hf.
  - apply no_double_dropWhileEnd, no_double_dropWhile, Hd.
  - intros H.
    destruct (dropWhileEnd_head (N.eqb HYPHEN) (dropWhile (N.eqb HYPHEN) z))
      as [Hnil|Hhead]; [rewrite Hnil in H; discriminate|].
    rewrite Hhead in H. apply dropWhile_head in H.
    rewrite N.eqb_refl in H. discriminate.
  - intros H. apply dropWhileEnd_last in H.
    rewrite N.eqb_refl in H. discriminate.
Qed.

Section Properties.

Variable toLowerCase : jsstring -> jsstring.
Variable stringToNumber : jsstring -> number.
Variable numberToString : number -> jsstring.

(** On ASCII text, [toLowerCase] maps A-Z to a-z and keeps the rest. *)
Hypothesis toLowerCase_ascii :
  forall s, forallb isAscii s = true -> toLowerCase s = lowerAscii s.

(** A numeric text whose value is a double is converted to that value:
    nothing is rounded. *)
Hypothesis stringToNumber_exact :
  forall tok,
    matchNumberAt tok = Some tok ->
    exactDouble (decimalValue tok) = true ->
    stringToNumber tok = decimalValue tok.

(** A run of digits is converted to a whole number, not negative and
    below 2^1024, or to Infinity. *)
Hypothesis stringToNumber_digits :
  forall ds,
    ds <> [] -> forallb isDigit ds = true ->
    stringToNumber ds = PosInf
    \/ exists n, (0 <= n < OVERFLOW)%Z /\ stringToNumber ds = Fin n 0.

(** A whole number from 0 to 2^53 is printed as its decimal digits. *)
Hypothesis numberToString_whole :
  forall n, (0 <= n <= 2 ^ 53)%Z ->
            numberToString (Fin n 0) = natDigits (Z.to_N n).

(** ** Slugification *)

Lemma slugify_trims_nothing_more t :
  dropWhileEnd (N.eqb HYPHEN)
    (dropWhile (N.eqb HYPHEN)
       (collapseRuns notAlnum HYPHEN (List.filter notQuote (trim t))))
  = slugWords t.
Proof.
  unfold slugWords, collapseRuns, trim.
  rewrite <- !(dropWhile_dropWhileEnd (N.eqb HYPHEN)).
  rewrite hyphens_after_trailing_space.
  rewrite !(dropWhile_dropWhileEnd (N.eqb HYPHEN)).
  rewrite hyphens_after_leading_space. reflexivity.
Qed.

(** C3 (amended): slugification lowercases its argument, removes the
    straight quote characters, replaces every run of characters outside
    a-z0-9 by one hyphen and trims the hyphens at both ends, so that a
    slug is made of a-z0-9 and single hyphens, none first or last;
    O'Brien gives obrien and New York with spaces and exclamation marks
    around gives new-york. *)
Theorem slugify_steps :
  (forall s, slugify toLowerCase s = slugWords (toLowerCase s))
  /\ (forall s, slugShape (slugify toLowerCase s))
  /\ slugify toLowerCase (js "O'Brien") = js "obrien"
  /\ slugify toLowerCase (js "  New   York!!") = js "new-york".
Proof.
  split; [|split; [|split]].
  - intros s. apply slugify_trims_nothing_more.
  - intros s. unfold slugify. rewrite slugify_trims_nothing_more.
    apply slugWords_shape.
  - unfold slugify. rewrite toLowerCase_ascii by reflexivity. reflexivity.
  - unfold slugify. rewrite toLowerCase_ascii by reflexivity. reflexivity.
Qed.

(** ** Key normalization *)

Lemma normalizeKey_chars k :
  forallb isKeyChar (normalizeKey toLowerCase k) = true.
Proof. apply forallb_filter. Qed.

Lemma lowerAscii_keyChars s :
  forallb isKeyChar s = true -> lowerAscii s = s.
Proof.
  induction s as [|c s IH]; simpl; [reflexivity|].
  intros H. apply andb_true_iff in H as [Hc Hs].
  rewrite (keyChar_lower _ Hc), IH by assumption. reflexivity.
Qed.

Lemma normalizeKey_fixes_keys s :
  forallb isKeyChar s = true -> normalizeKey toLowerCase s = s.
Proof.
  intros H. unfold normalizeKey.
  assert (forallb (fun c => negb (isSpace c)) s = true) as Hns.
  { eapply forallb_impl; [|exact H].
    intros c Hc. rewrite (keyChar_not_space _ Hc). reflexivity. }
  rewrite toLowerCase_ascii
    by (eapply forallb_impl; [apply keyChar_ascii | exact H]).
  rewrite lowerAscii_keyChars by assumption.
  rewrite trim_none by assumption.
  unfold collapseRuns. rewrite collapseFrom_none by assumption.
  apply filter_all; assumption.
Qed.

(** C8: key normalization (lowercase, trim, every run of white space made
    one underscore, characters outside a-z0-9_ removed) is idempotent:
    normalizing a normalized key returns it unchanged. *)
Theorem normalizeKey_idempotent k :
  normalizeKey toLowerCase (normalizeKey toLowerCase k)
  = normalizeKey toLowerCase k.
Proof. apply normalizeKey_fixes_keys, normalizeKey_chars. Qed.

(** ** Shape detection *)

Lemma existsb_comma_without_tab lines :
  existsb hasTab lines = false ->
  existsb (fun l => includes l [COMMA] && negb (includes l [TAB])) lines
  = existsb hasComma lines.
Proof.
  induction lines as [|l lines IH]; simpl; [reflexivity|].
  intros H. apply orb_false_iff in H as [Hl Hrest].
  unfold hasTab in Hl. rewrite Hl, IH by assumption.
  unfold hasComma. rewrite andb_true_r. reflexivity.
Qed.

Lemma detectFormat_detectChain text :
  detectFormat text = detectChain (nonBlankLines text).
Proof.
  unfold detectFormat, detectChain. fold isTableLine.
  change (existsb (fun l => includes l [PIPE] && startsWith (trim l) [PIPE]))
    with (existsb isTableLine).
  destruct (existsb isTableLine (nonBlankLines text)); [reflexivity|].
  change (existsb (fun l => includes l [TAB])) with (existsb hasTab).
  destruct (existsb hasTab (nonBlankLines text)) eqn:Htab; [reflexivity|].
  rewrite existsb_comma_without_tab by assumption. reflexivity.
Qed.

(** C5 (amended): the detector returns one shape tag, decided by a fixed
    priority chain over the non-blank lines: markdown-table if some line
    contains a bar and starts with one once trimmed, else tab-separated
    if some line contains a tab, else comma-separated if some line
    contains a comma (no non-blank line has a tab at that point, a tab on
    a blank line does not count), else whitespace-aligned. *)
Theorem detectFormat_chain text :
  detectFormat text = detectChain (nonBlankLines text).
Proof. apply detectFormat_detectChain. Qed.

(** ** Coercions *)

Lemma digitsAt_digit c s :
  isDigit c = true -> digitsAt (c :: s) = Some (c :: takeWhile isDigit s).
Proof. intros H. unfold digitsAt. simpl. rewrite H. reflexivity. Qed.

Lemma digitsAt_other c s : isDigit c = false -> digitsAt (c :: s) = None.
Proof. intros H. unfold digitsAt. simpl. rewrite H. reflexivity. Qed.

Lemma digitsAt_None_run s : digitsAt s = None -> takeWhile isDigit s = [].
Proof. unfold digitsAt. destruct (takeWhile isDigit s); congruence. Qed.

Lemma digit_not_hash c : isDigit c = true -> (c =? HASH) = false.
Proof. intros; refute_class. Qed.

Lemma digit_not_hyphen c : isDigit c = true -> (c =? HYPHEN) = false.
Proof. intros; refute_class. Qed.

Lemma firstDigitRun_digit c s :
  isDigit c = true ->
  firstDigitRun (c :: s) = Some (c :: takeWhile isDigit s).
Proof.
  intros H. unfold firstDigitRun, notDigit. simpl. rewrite H. simpl.
  rewrite H. reflexivity.
Qed.

Lemma firstDigitRun_skip c s :
  isDigit c = false -> firstDigitRun (c :: s) = firstDigitRun s.
Proof.
  intros H. unfold firstDigitRun, notDigit. simpl. rewrite H. reflexivity.
Qed.

Lemma firstDigitRun_at s ds :
  digitsAt s = Some ds -> firstDigitRun s = Some ds.
Proof.
  destruct s as [|c s]; [discriminate|].
  destruct (isDigit c) eqn:Hc.
  - rewrite digitsAt_digit, firstDigitRun_digit by assumption. auto.
  - rewrite digitsAt_other by assumption. discriminate.
Qed.

(** The leftmost match of [#?(\d+)] captures the first run of digits. *)
Lemma search_rank s : search matchRankAt s = firstDigitRun s.
Proof.
  induction s as [|c s IH]; [reflexivity|].
  cbn [search]. destruct (isDigit c) eqn:Hc.
  - unfold matchRankAt. rewrite (digit_not_hash _ Hc).
    rewrite digitsAt_digit, firstDigitRun_digit by assumption. reflexivity.
  - rewrite firstDigitRun_skip by assumption.
    unfold matchRankAt. rewrite (digitsAt_other c) by assumption.
    destruct (c =? HASH); [|exact IH].
    destruct (digitsAt s) as [ds|] eqn:Hs; [|exact IH].
    symmetry. apply firstDigitRun_at; assumption.
Qed.

Lemma unsignedAt_digit c s :
  isDigit c = true -> unsignedAt (c :: s) = Some (numeral (c :: s)).
Proof.
  intros H. unfold unsignedAt, numeral.
  rewrite digitsAt_digit by assumption.
  cbn [takeWhile dropWhile]. rewrite H.
  destruct (dropWhile isDigit s) as [|d rest]; [now rewrite app_nil_r|].
  destruct (d =? DOT); cbn [andb]; [|now rewrite app_nil_r].
  unfold digitsAt. destruct (takeWhile isDigit rest); cbn;
    [now rewrite app_nil_r | reflexivity].
Qed.

Lemma unsignedAt_other c s : isDigit c = false -> unsignedAt (c :: s) = None.
Proof. intros H. unfold unsignedAt. rewrite digitsAt_other; auto. Qed.

Lemma unsignedAt_nil : unsignedAt [] = None.
Proof. reflexivity. Qed.

Lemma firstNumericToken_digit c s :
  isDigit c = true -> firstNumericToken (c :: s) = Some (numeral (c :: s)).
Proof.
  intros H. unfold firstNumericToken, notDigit.
  cbn [takeWhile dropWhile]. rewrite H. reflexivity.
Qed.

(** In front of a text that does not start with a digit, one more
    character that is not a digit changes nothing. *)
Lemma firstNumericToken_skip c s :
  isDigit c = false ->
  match s with d :: _ => isDigit d = false | [] => True end ->
  firstNumericToken (c :: s) = firstNumericToken s.
Proof.
  intros Hc Hs. unfold firstNumericToken, notDigit.
  cbn [takeWhile dropWhile]. rewrite Hc. cbn [negb].
  destruct s as [|d s]; [reflexivity|].
  cbn [takeWhile dropWhile]. rewrite Hs. cbn [negb].
  destruct (dropWhile _ s); reflexivity.
Qed.

(** In front of a digit, a character that is not a digit gives the sign. *)
Lemma firstNumericToken_before_digit c d s :
  isDigit c = false -> isDigit d = true ->
  firstNumericToken (c :: d :: s)
  = Some ((if c =? HYPHEN then [HYPHEN] else []) ++ numeral (d :: s)).
Proof.
  intros Hc Hd. unfold firstNumericToken, notDigit.
  cbn [takeWhile dropWhile]. rewrite Hc, Hd. reflexivity.
Qed.

Lemma matchNumberAt_digit c s :
  isDigit c = true -> matchNumberAt (c :: s) = Some (numeral (c :: s)).
Proof.
  intros H. unfold matchNumberAt. rewrite (digit_not_hyphen _ H).
  apply unsignedAt_digit; assumption.
Qed.

Lemma matchNumberAt_other c s :
  isDigit c = false ->
  matchNumberAt (c :: s)
  = if c =? HYPHEN then option_map (cons HYPHEN) (unsignedAt s) else None.
Proof.
  intros H. unfold matchNumberAt. rewrite (unsignedAt_other c) by assumption.
  destruct (c =? HYPHEN); [|reflexivity].
  destruct (unsignedAt s); reflexivity.
Qed.

(** The leftmost match of [-?\d+(\.\d+)?] is the first numeric token. *)
Lemma search_number s : search matchNumberAt s = firstNumericToken s.
Proof.
  induction s as [|c s IH]; [reflexivity|].
  cbn [search]. destruct (isDigit c) eqn:Hc.
  - rewrite matchNumberAt_digit, firstNumericToken_digit by assumption.
    reflexivity.
  - rewrite matchNumberAt_other by assumption.
    destruct s as [|d s].
    + rewrite unsignedAt_nil, firstNumericToken_skip by auto.
      destruct (c =? HYPHEN); reflexivity.
    + destruct (isDigit d) eqn:Hd.
      * rewrite firstNumericToken_before_digit by assumption.
        rewrite unsignedAt_digit by assumption.
        destruct (c =? HYPHEN) eqn:Hh; [reflexivity|].
        rewrite IH, firstNumericToken_digit by assumption. reflexivity.
      * rewrite (unsignedAt_other d) by assumption.
        rewrite firstNumericToken_skip by assumption.
        destruct (c =? HYPHEN); exact IH.
Qed.

(** Trimming the text first does not change what the search finds. *)

Lemma space_not_digit c : isSpace c = true -> isDigit c = false.
Proof. intros; refute_class. Qed.

Lemma space_not_hash c : isSpace c = true -> (c =? HASH) = false.
Proof. intros; refute_class. Qed.

Lemma space_not_hyphen c : isSpace c = true -> (c =? HYPHEN) = false.
Proof. intros; refute_class. Qed.

Lemma space_not_dot c : isSpace c = true -> (c =? DOT) = false.
Proof. intros; refute_class. Qed.

Lemma dropWhileEnd_split (p : N -> bool) u :
  exists ws, forallb p ws = true /\ u = dropWhileEnd p u ++ ws.
Proof.
  induction u as [|c u (ws & Hws & Hu)]; [exists []; auto|].
  cbn [dropWhileEnd]. destruct (dropWhileEnd p u) as [|d r] eqn:Hd.
  - destruct (p c) eqn:Hc.
    + exists (c :: u). split; [|reflexivity].
      simpl. rewrite Hc. simpl in Hu. subst u. assumption.
    + exists ws. split; [assumption|]. simpl in *. congruence.
  - exists ws. split; [assumption|]. simpl in *. congruence.
Qed.

Lemma takeWhile_digits_spaces x ws :
  forallb isSpace ws = true ->
  takeWhile isDigit (x ++ ws) = takeWhile isDigit x.
Proof.
  intros Hws. induction x as [|c x IH]; simpl.
  - destruct ws as [|w ws]; [reflexivity|].
    apply forallb_cons_inv in Hws as [Hw _].
    simpl. rewrite (space_not_digit _ Hw). reflexivity.
  - rewrite IH. reflexivity.
Qed.

Lemma dropWhile_digits_spaces x ws :
  forallb isSpace ws = true ->
  dropWhile isDigit (x ++ ws) = dropWhile isDigit x ++ ws.
Proof.
  intros Hws. induction x as [|c x IH]; simpl.
  - destruct ws as [|w ws]; [reflexivity|].
    apply forallb_cons_inv in Hws as [Hw _].
    simpl. rewrite (space_not_digit _ Hw). reflexivity.
  - rewrite IH. destruct (isDigit c); reflexivity.
Qed.

Lemma digitsAt_spaces x ws :
  forallb isSpace ws = true -> digitsAt (x ++ ws) = digitsAt x.
Proof.
  intros Hws. unfold digitsAt. rewrite takeWhile_digits_spaces; auto.
Qed.

Lemma matchRankAt_spaces x ws :
  forallb isSpace ws = true -> matchRankAt (x ++ ws) = matchRankAt x.
Proof.
  intros Hws. destruct x as [|c x].
  - destruct ws as [|w ws]; [reflexivity|].
    apply forallb_cons_inv in Hws as [Hw _].
    simpl. rewrite (space_not_hash _ Hw).
    apply digitsAt_other, space_not_digit, Hw.
  - change ((c :: x) ++ ws) with (c :: (x ++ ws)). unfold matchRankAt.
    rewrite (digitsAt_spaces x) by assumption.
    change (c :: (x ++ ws)) with ((c :: x) ++ ws).
    rewrite (digitsAt_spaces (c :: x)) by assumption. reflexivity.
Qed.

Lemma unsignedAt_spaces x ws :
  forallb isSpace ws = true -> unsignedAt (x ++ ws) = unsignedAt x.
Proof.
  intros Hws. unfold unsignedAt.
  rewrite digitsAt_spaces, dropWhile_digits_spaces by assumption.
  destruct (digitsAt x) as [ds|]; [|reflexivity].
  destruct (dropWhile isDigit x) as [|c rest].
  - destruct ws as [|w ws]; [reflexivity|].
    apply forallb_cons_inv in Hws as [Hw _].
    simpl. rewrite (space_not_dot _ Hw). reflexivity.
  - cbn [app]. rewrite digitsAt_spaces by assumption. reflexivity.
Qed.

Lemma matchNumberAt_spaces x ws :
  forallb isSpace ws = true -> matchNumberAt (x ++ ws) = matchNumberAt x.
Proof.
  intros Hws. destruct x as [|c x].
  - destruct ws as [|w ws]; [reflexivity|].
    apply forallb_cons_inv in Hws as [Hw _].
    rewrite app_nil_l, matchNumberAt_other by (apply space_not_digit, Hw).
    rewrite (space_not_hyphen _ Hw). reflexivity.
  - change ((c :: x) ++ ws) with (c :: (x ++ ws)). unfold matchNumberAt.
    rewrite (unsignedAt_spaces x) by assumption.
    change (c :: (x ++ ws)) with ((c :: x) ++ ws).
    rewrite (unsignedAt_spaces (c :: x)) by assumption. reflexivity.
Qed.

Section SearchTrim.

Context {A : Type} (matchAt : jsstring -> option A).
Hypothesis at_space : forall c u, isSpace c = true -> matchAt (c :: u) = None.
Hypothesis at_end : matchAt [] = None.
Hypothesis at_trailing :
  forall x ws, forallb isSpace ws = true -> matchAt (x ++ ws) = matchAt x.

Lemma search_spaces ws : forallb isSpace ws = true -> search matchAt ws = None.
Proof.
  induction ws as [|w ws IH]; simpl; [now rewrite at_end|].
  intros H. apply andb_true_iff in H as [Hw Hws].
  rewrite at_space by assumption. auto.
Qed.

Lemma search_app_spaces x ws :
  forallb isSpace ws = true -> search matchAt (x ++ ws) = search matchAt x.
Proof.
  intros Hws. induction x as [|c x IH].
  - rewrite app_nil_l, search_spaces by assumption.
    simpl. now rewrite at_end.
  - change ((c :: x) ++ ws) with (c :: (x ++ ws)). cbn [search].
    change (c :: (x ++ ws)) with ((c :: x) ++ ws).
    rewrite at_trailing, IH by assumption. reflexivity.
Qed.

Lemma search_dropWhile u :
  search matchAt (dropWhile isSpace u) = search matchAt u.
Proof.
  induction u as [|c u IH]; [reflexivity|].
  cbn [dropWhile]. destruct (isSpace c) eqn:Hc; [|reflexivity].
  rewrite IH. cbn [search]. rewrite at_space by assumption. reflexivity.
Qed.

Lemma search_trim u : search matchAt (trim u) = search matchAt u.
Proof.
  unfold trim.
  destruct (dropWhileEnd_split isSpace (dropWhile isSpace u)) as (ws & Hws & Hu).
  rewrite <- (search_dropWhile u). rewrite Hu at 2.
  rewrite search_app_spaces by assumption. reflexivity.
Qed.

End SearchTrim.

Lemma search_rank_trim s : search matchRankAt (trim s) = firstDigitRun s.
Proof.
  rewrite search_trim, search_rank; [reflexivity| |reflexivity|].
  - intros c u Hc. unfold matchRankAt. rewrite (space_not_hash _ Hc).
    apply digitsAt_other, space_not_digit, Hc.
  - apply matchRankAt_spaces.
Qed.

Lemma search_number_trim s : search matchNumberAt (trim s) = firstNumericToken s.
Proof.
  rewrite search_trim, search_number; [reflexivity| |reflexivity|].
  - intros c u Hc. rewrite matchNumberAt_other by (apply space_not_digit, Hc).
    rewrite (space_not_hyphen _ Hc). reflexivity.
  - apply matchNumberAt_spaces.
Qed.

Lemma coerceRank_string s :
  coerceRank stringToNumber numberToString (VStr s)
  = match firstDigitRun s with
    | Some ds => VNum (stringToNumber ds)
    | None => VNull
    end.
Proof. unfold coerceRank. cbn [toStr]. rewrite search_rank_trim. reflexivity. Qed.

Lemma coerceNumber_string s :
  coerceNumber stringToNumber numberToString (VStr s)
  = match firstNumericToken s with
    | Some tok => VNum (stringToNumber tok)
    | None => VNull
    end.
Proof. unfold coerceNumber. cbn [toStr]. rewrite search_number_trim. reflexivity. Qed.

(** *** Runs of digits as numbers *)

Lemma takeWhile_forallb (p : N -> bool) s : forallb p (takeWhile p s) = true.
Proof.
  induction s as [|c s IH]; [reflexivity|].
  cbn [takeWhile]. destruct (p c) eqn:Hc; [|reflexivity].
  cbn [forallb]. rewrite Hc. exact IH.
Qed.

Lemma takeWhile_all (p : N -> bool) s :
  forallb p s = true -> takeWhile p s = s /\ dropWhile p s = [].
Proof.
  induction s as [|c s IH]; [split; reflexivity|].
  cbn [forallb takeWhile dropWhile]. intros H.
  apply andb_true_iff in H as [Hc Hs]. rewrite Hc.
  destruct (IH Hs) as [-> ->]. split; reflexivity.
Qed.

Lemma firstDigitRun_digits s ds :
  firstDigitRun s = Some ds -> ds <> [] /\ forallb isDigit ds = true.
Proof.
  unfold firstDigitRun.
  destruct (dropWhile notDigit s) as [|c rest] eqn:Hd; [discriminate|].
  assert (notDigit c = false) as Hc.
  { apply (dropWhile_head notDigit s). rewrite Hd. reflexivity. }
  unfold notDigit in Hc. apply negb_false_iff in Hc.
  pose proof (takeWhile_forallb isDigit (c :: rest)) as Hall.
  cbn [takeWhile] in *. rewrite Hc in *.
  intros [= <-]. split; [discriminate | exact Hall].
Qed.

Lemma digits_matched ds :
  ds <> [] -> forallb isDigit ds = true -> matchNumberAt ds = Some ds.
Proof.
  intros Hne Hds. destruct ds as [|c ds]; [contradiction|].
  pose proof Hds as Hall. cbn [forallb] in Hds.
  apply andb_true_iff in Hds as [Hc Hs].
  rewrite matchNumberAt_digit by assumption. unfold numeral.
  destruct (takeWhile_all isDigit (c :: ds) Hall) as [-> ->].
  rewrite app_nil_r. reflexivity.
Qed.

Lemma digits_decimalValue ds :
  ds <> [] -> forallb isDigit ds = true ->
  decimalValue ds = Fin (Z.of_N (digitsValue ds)) 0.
Proof.
  intros Hne Hds. destruct ds as [|c ds]; [contradiction|].
  unfold decimalValue.
  assert (startsWith (c :: ds) [HYPHEN] = false) as ->.
  { pose proof Hds as Hall. cbn [forallb] in Hall.
    apply andb_true_iff in Hall as [Hc _].
    cbn [startsWith]. rewrite N.eqb_sym, (digit_not_hyphen _ Hc). reflexivity. }
  destruct (takeWhile_all isDigit (c :: ds) Hds) as [-> ->].
  cbn [tail length normalDecimal]. rewrite app_nil_r. reflexivity.
Qed.

(** A run of digits of value up to 2^53 is converted to that value. *)
Lemma stringToNumber_safe ds :
  ds <> [] -> forallb isDigit ds = true ->
  (Z.of_N (digitsValue ds) <= 2 ^ 53)%Z ->
  stringToNumber ds = Fin (Z.of_N (digitsValue ds)) 0.
Proof.
  intros Hne Hds Hsafe.
  rewrite stringToNumber_exact; [apply digits_decimalValue; assumption| |].
  - apply digits_matched; assumption.
  - rewrite digits_decimalValue by assumption. unfold exactDouble.
    change (5 ^ Z.of_nat 0)%Z with 1%Z.
    rewrite Z.mod_1_r, Z.div_1_r, Z.abs_eq by lia.
    apply andb_true_iff. split; [apply andb_true_iff; split|reflexivity].
    + reflexivity.
    + apply Z.leb_le. exact Hsafe.
Qed.

(** *** A numeric token is matched in full by the expression *)

Lemma takeWhile_app_stop (p : N -> bool) (D F : jsstring) :
  forallb p D = true ->
  match F with c :: _ => p c = false | [] => True end ->
  takeWhile p (D ++ F) = D /\ dropWhile p (D ++ F) = F.
Proof.
  intros HD HF. induction D as [|d D IH].
  - destruct F as [|c F]; [split; reflexivity|].
    cbn [app takeWhile dropWhile]. rewrite HF. split; reflexivity.
  - cbn [forallb] in HD. apply andb_true_iff in HD as [Hd HD].
    cbn [app takeWhile dropWhile]. rewrite Hd.
    destruct (IH HD) as [-> ->]. split; reflexivity.
Qed.

Lemma dot_not_digit : isDigit DOT = false.
Proof. reflexivity. Qed.

Lemma numeral_fixed d r :
  isDigit d = true -> numeral (numeral (d :: r)) = numeral (d :: r).
Proof.
  intros Hd. unfold numeral at 2 3.
  set (D := takeWhile isDigit (d :: r)).
  assert (forallb isDigit D = true) as HD by apply takeWhile_forallb.
  destruct (dropWhile isDigit (d :: r)) as [|c after].
  { rewrite app_nil_r. unfold numeral.
    destruct (takeWhile_all isDigit D HD) as [-> ->].
    apply app_nil_r. }
  destruct ((c =? DOT) && negb (Nat.eqb (length (takeWhile isDigit after)) 0))
    eqn:Hc.
  - apply andb_true_iff in Hc as [Hdot Hlen]. apply N.eqb_eq in Hdot. subst c.
    set (G := takeWhile isDigit after) in *.
    assert (forallb isDigit G = true) as HG by apply takeWhile_forallb.
    unfold numeral.
    destruct (takeWhile_app_stop isDigit D (DOT :: G) HD dot_not_digit)
      as [-> ->].
    rewrite N.eqb_refl. destruct (takeWhile_all isDigit G HG) as [-> _].
    rewrite Hlen. reflexivity.
  - rewrite app_nil_r. unfold numeral.
    destruct (takeWhile_all isDigit D HD) as [-> ->].
    apply app_nil_r.
Qed.

Lemma numeral_head d r :
  isDigit d = true -> exists t, numeral (d :: r) = d :: t.
Proof.
  intros Hd. unfold numeral. cbn [takeWhile]. rewrite Hd. eexists. reflexivity.
Qed.

Lemma numericToken_matched s tok :
  firstNumericToken s = Some tok -> matchNumberAt tok = Some tok.
Proof.
  unfold firstNumericToken.
  destruct (dropWhile notDigit s) as [|d r] eqn:Hrest; [discriminate|].
  assert (isDigit d = true) as Hd.
  { assert (notDigit d = false) as H
        by (apply (dropWhile_head notDigit s); rewrite Hrest; reflexivity).
    unfold notDigit in H. apply negb_false_iff in H. exact H. }
  assert (matchNumberAt (numeral (d :: r)) = Some (numeral (d :: r))) as Hplain.
  { destruct (numeral_head d r Hd) as [t Ht]. rewrite Ht at 1.
    rewrite matchNumberAt_digit by assumption. rewrite <- Ht.
    rewrite numeral_fixed by assumption. reflexivity. }
  assert (matchNumberAt (HYPHEN :: numeral (d :: r))
          = Some (HYPHEN :: numeral (d :: r))) as Hsigned.
  { unfold matchNumberAt. rewrite N.eqb_refl.
    destruct (numeral_head d r Hd) as [t Ht]. rewrite Ht.
    rewrite unsignedAt_digit by assumption. rewrite <- Ht.
    rewrite numeral_fixed by assumption. reflexivity. }
  intros [= <-].
  destruct (last (takeWhile notDigit s)) as [c|]; [|exact Hplain].
  destruct (c =? HYPHEN); [exact Hsigned | exact Hplain].
Qed.


(** ** Records *)

Lemma setProp_lookup_eq (k : jsstring) (v : value) (obj : record) :
  k <> js "__proto__" -> setProp k v obj !! k = Some v.
Proof.
  intros Hk. unfold setProp. destruct (decide _); [contradiction|].
  apply lookup_insert_eq.
Qed.

Lemma setProp_lookup_ne (k k' : jsstring) (v : value) (obj : record) :
  k <> k' -> setProp k v obj !! k' = obj !! k'.
Proof.
  intros Hk. unfold setProp. destruct (decide _); [reflexivity|].
  apply lookup_insert_ne; assumption.
Qed.

Lemma setProp_Forall (P : jsstring -> value -> Prop) (k : jsstring) (v : value)
    (obj : record) :
  P k v -> map_Forall P obj -> map_Forall P (setProp k v obj).
Proof.
  intros Hv Hobj. unfold setProp. destruct (decide _); [assumption|].
  apply map_Forall_insert_2; assumption.
Qed.

Lemma coerceFields_rank (obj : record) :
  coerceFields stringToNumber numberToString obj !! js "rank"
  = coerceRank stringToNumber numberToString <$> obj !! js "rank".
Proof.
  unfold coerceFields.
  destruct (obj !! js "rank") as [v|] eqn:Hrank.
  - destruct (setProp (js "rank") (coerceRank stringToNumber numberToString v) obj !! js "rating") eqn:Hr.
    + rewrite setProp_lookup_ne by discriminate.
      rewrite setProp_lookup_eq by discriminate. reflexivity.
    + rewrite setProp_lookup_eq by discriminate. reflexivity.
  - destruct (obj !! js "rating") eqn:Hr.
    + rewrite setProp_lookup_ne by discriminate. rewrite Hrank. reflexivity.
    + rewrite Hrank. reflexivity.
Qed.

Lemma coerceFields_rating (obj : record) :
  coerceFields stringToNumber numberToString obj !! js "rating"
  = coerceNumber stringToNumber numberToString <$> obj !! js "rating".
Proof.
  unfold coerceFields.
  set (obj1 := match obj !! js "rank" with
               | Some v => setProp (js "rank") (coerceRank stringToNumber numberToString v) obj
               | None => obj
               end).
  assert (obj1 !! js "rating" = obj !! js "rating") as H1.
  { subst obj1. destruct (obj !! js "rank"); [|reflexivity].
    apply setProp_lookup_ne. discriminate. }
  destruct (obj1 !! js "rating") as [v|] eqn:Hr.
  - rewrite setProp_lookup_eq by discriminate. rewrite <- H1. reflexivity.
  - rewrite Hr, <- H1. reflexivity.
Qed.

Lemma coerceFields_other (obj : record) (k : jsstring) :
  k <> js "rank" -> k <> js "rating" -> coerceFields stringToNumber numberToString obj !! k = obj !! k.
Proof.
  intros Hk1 Hk2. unfold coerceFields.
  set (obj1 := match obj !! js "rank" with
               | Some v => setProp (js "rank") (coerceRank stringToNumber numberToString v) obj
               | None => obj
               end).
  assert (obj1 !! k = obj !! k) as H1.
  { subst obj1. destruct (obj !! js "rank"); [|reflexivity].
    apply setProp_lookup_ne. congruence. }
  destruct (obj1 !! js "rating").
  - rewrite setProp_lookup_ne by congruence. exact H1.
  - exact H1.
Qed.


Lemma attachMeta_lookup (m : gmap jsstring jsstring) (obj : record) (k : jsstring) :
  attachMeta m obj !! k
  = if decide (k = js "__proto__") then obj !! k
    else match m !! k with
         | Some v => Some (VStr v)
         | None => obj !! k
         end.
Proof.
  unfold attachMeta. revert k.
  apply (map_fold_weak_ind
           (fun (r : record) (m : gmap jsstring jsstring) =>
              forall k, r !! k
              = if decide (k = js "__proto__") then obj !! k
                else match m !! k with
                     | Some v => Some (VStr v)
                     | None => obj !! k
                     end)).
  - intros k. rewrite lookup_empty. destruct (decide _); reflexivity.
  - intros i x m' r Hi IH k. specialize (IH k).
    destruct (decide (i = k)) as [->|Hik].
    + destruct (decide (k = js "__proto__")) as [Hp|Hp].
      * unfold setProp. rewrite decide_True by assumption. exact IH.
      * rewrite setProp_lookup_eq by assumption.
        rewrite lookup_insert_eq. reflexivity.
    + rewrite setProp_lookup_ne by assumption.
      rewrite lookup_insert_ne by assumption. exact IH.
Qed.

Lemma assignHeader_strings (hs r : list jsstring) (obj : record) :
  map_Forall (fun _ v => isString v) obj ->
  map_Forall (fun _ v => isString v) (assignHeader toLowerCase hs r obj).
Proof.
  revert r obj. induction hs as [|h hs IH]; intros r obj Hobj; [assumption|].
  cbn [assignHeader]. apply IH, setProp_Forall; [exact I | assumption].
Qed.

Lemma assignColumns_strings (i : nat) (r : list jsstring) (obj : record) :
  map_Forall (fun _ v => isString v) obj ->
  map_Forall (fun _ v => isString v) (assignColumns i r obj).
Proof.
  revert i obj. induction r as [|c r IH]; intros i obj Hobj; [assumption|].
  cbn [assignColumns]. apply IH, setProp_Forall; [exact I | assumption].
Qed.

Lemma assignKeys_strings fh r :
  map_Forall (fun _ v => isString v) (assignKeys toLowerCase fh r).
Proof.
  destruct fh; cbn [assignKeys].
  - apply assignHeader_strings, map_Forall_empty.
  - apply assignColumns_strings, map_Forall_empty.
Qed.

Lemma coerced_source_fields fh r (k : jsstring) :
  k <> js "rank" -> k <> js "rating" ->
  stringOrAbsent (coerceFields stringToNumber numberToString (assignKeys toLowerCase fh r) !! k).
Proof.
  intros H1 H2. rewrite coerceFields_other by assumption.
  destruct (assignKeys toLowerCase fh r !! k) as [v|] eqn:Hv; [|exact I].
  exact (assignKeys_strings fh r k v Hv).
Qed.

Lemma coerceRank_not_string v :
  ~ isString (coerceRank stringToNumber numberToString v).
Proof.
  unfold coerceRank. destruct v; try (intros []);
    destruct (search matchRankAt _); intros [].
Qed.

Lemma toStr_orElse o rest :
  stringOrAbsent o ->
  toStr numberToString (orElse o rest)
  = match o with
    | Some (VStr (c :: s)) => c :: s
    | _ => toStr numberToString rest
    end.
Proof.
  destruct o as [[s| |]|]; cbn; try contradiction; try reflexivity.
  destruct s; reflexivity.
Qed.

Lemma toStr_idBase (obj : record) :
  Forall (fun k => stringOrAbsent (obj !! k)) idSources ->
  toStr numberToString (idBase obj) = firstNonEmptyField obj idSources (js "row").
Proof.
  intros H. unfold idSources in H.
  repeat match goal with
         | H : Forall _ (_ :: _) |- _ => apply Forall_cons_1 in H as [? H]
         end.
  unfold idBase. rewrite !toStr_orElse by assumption. reflexivity.
Qed.

(** A field that is neither the identifier nor a key of the metadata is
    in the finished record as the coercions left it. *)
Lemma buildRecord_field fh opts produced r (k : jsstring) :
  k <> js "id" ->
  meta opts !! k = None ->
  buildRecord toLowerCase stringToNumber numberToString fh opts produced r !! k
  = coerceFields stringToNumber numberToString (assignKeys toLowerCase fh r) !! k.
Proof.
  intros Hid Hmeta. unfold buildRecord. rewrite attachMeta_lookup, Hmeta.
  assert ((if addId opts
           then attachId toLowerCase numberToString produced
                  (coerceFields stringToNumber numberToString
                     (assignKeys toLowerCase fh r))
           else coerceFields stringToNumber numberToString
                  (assignKeys toLowerCase fh r)) !! k
          = coerceFields stringToNumber numberToString
              (assignKeys toLowerCase fh r) !! k) as ->.
  { destruct (addId opts); [|reflexivity].
    unfold attachId. apply setProp_lookup_ne. congruence. }
  destruct (decide _); reflexivity.
Qed.

(** C4: in the record built for a row, the key rank holds the number the
    first run of digits of its cell is converted to, or null when the
    cell has no digit; the key rating holds the number the first numeric
    token of its cell is converted to (a run of digits with an optional
    hyphen in front and an optional point and digits behind), or null
    when there is none.  The conversion is the one of the runtime: a run
    of digits of value up to 2^53 gives that value, and a token whose
    value is a double gives that value, so #12 and 12 give 12, and 8.5
    and -3 give 8.5 and -3; a longer text gives the double the runtime
    rounds it to. *)
Theorem coercion_of_rank_and_rating fh opts produced r :
  (forall s,
      assignKeys toLowerCase fh r !! js "rank" = Some (VStr s) ->
      meta opts !! js "rank" = None ->
      buildRecord toLowerCase stringToNumber numberToString fh opts produced r
      !! js "rank"
      = Some (match firstDigitRun s with
              | Some ds => VNum (stringToNumber ds)
              | None => VNull
              end))
  /\ (forall s,
         assignKeys toLowerCase fh r !! js "rating" = Some (VStr s) ->
         meta opts !! js "rating" = None ->
         buildRecord toLowerCase stringToNumber numberToString fh opts produced r
         !! js "rating"
         = Some (match firstNumericToken s with
                 | Some tok => VNum (stringToNumber tok)
                 | None => VNull
                 end))
  /\ (forall s ds,
         firstDigitRun s = Some ds ->
         (Z.of_N (digitsValue ds) <= 2 ^ 53)%Z ->
         stringToNumber ds = Fin (Z.of_N (digitsValue ds)) 0)
  /\ (forall s tok,
         firstNumericToken s = Some tok ->
         exactDouble (decimalValue tok) = true ->
         stringToNumber tok = decimalValue tok)
  /\ coerceRank stringToNumber numberToString (VStr (js "#12")) = VNum (Fin 12 0)
  /\ coerceRank stringToNumber numberToString (VStr (js "12")) = VNum (Fin 12 0)
  /\ coerceRank stringToNumber numberToString (VStr (js "rank: none")) = VNull
  /\ coerceNumber stringToNumber numberToString (VStr (js "8.5")) = VNum (Fin 85 1)
  /\ coerceNumber stringToNumber numberToString (VStr (js "-3")) = VNum (Fin (-3) 0)
  /\ coerceNumber stringToNumber numberToString (VStr (js "n/a")) = VNull.
Proof.
  split; [|split; [|split; [|split]]].
  - intros s H Hmeta. rewrite buildRecord_field by (discriminate || assumption).
    rewrite coerceFields_rank, H. cbn [fmap option_fmap option_map].
    rewrite coerceRank_string. reflexivity.
  - intros s H Hmeta. rewrite buildRecord_field by (discriminate || assumption).
    rewrite coerceFields_rating, H. cbn [fmap option_fmap option_map].
    rewrite coerceNumber_string. reflexivity.
  - intros s ds Hs Hsafe. destruct (firstDigitRun_digits s ds Hs) as [Hne Hds].
    apply stringToNumber_safe; assumption.
  - intros s tok Hs Hexact. apply stringToNumber_exact; [|exact Hexact].
    apply (numericToken_matched s), Hs.
  - assert (stringToNumber (js "12") = Fin 12 0) as H12
        by (apply stringToNumber_exact; reflexivity).
    assert (stringToNumber (js "8.5") = Fin 85 1) as H85
        by (apply stringToNumber_exact; reflexivity).
    assert (stringToNumber (js "-3") = Fin (-3) 0) as H3
        by (apply stringToNumber_exact; reflexivity).
    rewrite !coerceRank_string, !coerceNumber_string.
    replace (firstDigitRun (js "#12")) with (Some (js "12")) by reflexivity.
    replace (firstDigitRun (js "12")) with (Some (js "12")) by reflexivity.
    replace (firstDigitRun (js "rank: none")) with (@None jsstring)
      by reflexivity.
    replace (firstNumericToken (js "8.5")) with (Some (js "8.5")) by reflexivity.
    replace (firstNumericToken (js "-3")) with (Some (js "-3")) by reflexivity.
    replace (firstNumericToken (js "n/a")) with (@None jsstring) by reflexivity.
    cbv beta iota. rewrite H12, H85, H3. repeat split; reflexivity.
Qed.

(** The identifier as the code composes it. *)
Lemma attachId_composed (produced : nat) (obj : record) :
  attachId toLowerCase numberToString produced obj !! js "id"
  = Some (VStr (slugify toLowerCase
                  (toStr numberToString (idBase obj)
                   ++ [HYPHEN]
                   ++ toStr numberToString
                        (coalesce (obj !! js "rank")
                           (Some (VNum (Fin (Z.of_nat (produced + 1)) 0))))))).
Proof. unfold attachId. apply setProp_lookup_eq. discriminate. Qed.

Lemma attachId_lookup fh produced r :
  (Z.of_nat (produced + 1) <= 2 ^ 53)%Z ->
  let obj := coerceFields stringToNumber numberToString
               (assignKeys toLowerCase fh r) in
  attachId toLowerCase numberToString produced obj !! js "id"
  = Some (VStr (slugify toLowerCase
                  (firstNonEmptyField obj idSources (js "row")
                   ++ [HYPHEN]
                   ++ match obj !! js "rank" with
                      | Some (VNum x) => numberToString x
                      | _ => natDigits (N.of_nat (produced + 1))
                      end))).
Proof.
  intros Hsmall obj. rewrite attachId_composed.
  rewrite toStr_idBase.
  2:{ unfold idSources. repeat constructor;
      apply coerced_source_fields; discriminate. }
  do 5 f_equal.
  assert (numberToString (Fin (Z.of_nat (produced + 1)) 0)
          = natDigits (N.of_nat (produced + 1))) as Hseq.
  { rewrite numberToString_whole by lia. f_equal. lia. }
  subst obj. rewrite coerceFields_rank.
  destruct (assignKeys toLowerCase fh r !! js "rank") as [v|];
    cbn [fmap option_fmap option_map coalesce nullish toStr];
    [|exact Hseq].
  pose proof (coerceRank_not_string v) as Hv.
  destruct (coerceRank stringToNumber numberToString v); cbn [toStr];
    [exfalso; apply Hv; exact I | reflexivity | exact Hseq].
Qed.

(** C6: with id synthesis enabled, the identifier stored is the slug of
    the base, a hyphen and the rank or the sequence number: the base is
    the first non-empty value among player, name, full_name, col2, col1,
    else the word row; the rank is used when it is a number, printed as
    the runtime prints it (its decimal digits when it is a whole number up
    to 2^53), and otherwise the count of records already produced plus
    one.  It is still there in the finished record unless the metadata
    has a key id.  The count of records is that of an array, so below
    2^53. *)
Theorem identifier_synthesis fh opts produced r :
  (Z.of_nat (produced + 1) <= 2 ^ 53)%Z ->
  let obj := coerceFields stringToNumber numberToString
               (assignKeys toLowerCase fh r) in
  let ident :=
    VStr (slugify toLowerCase
            (firstNonEmptyField obj idSources (js "row")
             ++ [HYPHEN]
             ++ match obj !! js "rank" with
                | Some (VNum x) => numberToString x
                | _ => natDigits (N.of_nat (produced + 1))
                end)) in
  attachId toLowerCase numberToString produced obj !! js "id" = Some ident
  /\ (addId opts = true ->
      meta opts !! js "id" = None ->
      buildRecord toLowerCase stringToNumber numberToString fh opts produced r
      !! js "id" = Some ident)
  /\ (forall s ds,
         assignKeys toLowerCase fh r !! js "rank" = Some (VStr s) ->
         firstDigitRun s = Some ds ->
         (Z.of_N (digitsValue ds) <= 2 ^ 53)%Z ->
         ident = VStr (slugify toLowerCase
                         (firstNonEmptyField obj idSources (js "row")
                          ++ [HYPHEN] ++ natDigits (digitsValue ds)))).
Proof.
  intros Hsmall obj ident. split; [apply attachId_lookup, Hsmall|]. split.
  - intros Hid Hmeta. unfold buildRecord. fold obj. rewrite Hid.
    rewrite attachMeta_lookup, Hmeta. rewrite decide_False by discriminate.
    apply attachId_lookup, Hsmall.
  - intros s ds Hs Hrun Hsafe. subst ident. do 4 f_equal.
    destruct (firstDigitRun_digits s ds Hrun) as [Hne Hds].
    subst obj. rewrite coerceFields_rank, Hs.
    cbn [fmap option_fmap option_map]. rewrite coerceRank_string, Hrun.
    rewrite stringToNumber_safe by assumption.
    rewrite numberToString_whole by lia. f_equal. lia.
Qed.

(** The metadata is written last: a key of the metadata holds its
    metadata value in the finished record. *)
Lemma buildRecord_meta fh opts produced r (k v : jsstring) :
  k <> js "__proto__" ->
  meta opts !! k = Some v ->
  buildRecord toLowerCase stringToNumber numberToString fh opts produced r !! k = Some (VStr v).
Proof.
  intros Hk Hv. unfold buildRecord.
  rewrite attachMeta_lookup, Hv. rewrite decide_False by assumption.
  reflexivity.
Qed.

(** ** The junk filter and the loop over the rows *)

Lemma skipRow_isJunk r : skipRow toLowerCase r = Return (isJunk toLowerCase r).
Proof.
  unfold skipRow, isJunk.
  destruct (includes _ _); [reflexivity|].
  destruct r as [|c [|d r]]; reflexivity.
Qed.

Lemma processRows_kept fh opts rows results :
  processRows toLowerCase stringToNumber numberToString fh opts rows results
  = Return
      (results
       ++ imap (fun i r => buildRecord toLowerCase stringToNumber numberToString fh opts (length results + i) r)
            (List.filter (fun r => negb (isJunk toLowerCase r)) rows)).
Proof.
  revert results. induction rows as [|r rows IH]; intros results.
  - cbn. rewrite app_nil_r. reflexivity.
  - cbn [processRows List.filter]. rewrite skipRow_isJunk. cbn [bind].
    destruct (isJunk toLowerCase r); cbn [negb].
    + apply IH.
    + rewrite IH, imap_cons, <- app_assoc. cbn [app].
      rewrite Nat.add_0_r. do 3 f_equal.
      apply imap_ext. intros i x _. cbn.
      rewrite length_app. cbn. f_equal. lia.
Qed.

(** C7: a row is discarded exactly when its cells, joined with one space
    and lowercased, contain three hyphens in a row, or when it is a
    single cell of fewer than two characters; the loop produces the
    records of the rows that are kept, the sequence number of each being
    the count of kept rows before it, so that discarded rows use no
    sequence number. *)
Theorem junk_rows_are_dropped fh opts :
  (forall r,
      skipRow toLowerCase r = Return true
      <-> (includes (toLowerCase (join [SP] r)) (js "---") = true
           \/ exists cell, r = [cell] /\ (length cell < 2)%nat))
  /\ (forall r, exists b, skipRow toLowerCase r = Return b)
  /\ (forall rows results,
         processRows toLowerCase stringToNumber numberToString fh opts rows results
         = Return
             (results
              ++ imap (fun i r =>
                         buildRecord toLowerCase stringToNumber numberToString fh opts (length results + i) r)
                   (List.filter (fun r => negb (isJunk toLowerCase r)) rows))).
Proof.
  split; [|split].
  - intros r. rewrite skipRow_isJunk. unfold isJunk. split.
    + intros H. injection H as H. apply orb_true_iff in H as [H|H]; [left; exact H|].
      right. destruct r as [|c [|d r]]; try discriminate.
      exists c. split; [reflexivity|]. apply Nat.ltb_lt. exact H.
    + intros [H|(cell & -> & H)]; f_equal; apply orb_true_iff; [left; exact H|].
      right. apply Nat.ltb_lt. exact H.
  - intros r. eexists. apply skipRow_isJunk.
  - apply processRows_kept.
Qed.

(** ** Sorting *)

Section StableSort.

Context {A : Type} (cmp : A -> A -> comparison) (key : A -> Z) (Q : A -> Prop).
Hypothesis cmp_key : forall a b, Q a -> Q b -> cmp a b = (key a ?= key b)%Z.

Lemma insertBy_perm x l : insertBy cmp x l ≡ₚ x :: l.
Proof.
  induction l as [|y l IH]; cbn; [reflexivity|].
  destruct (cmp x y); try reflexivity.
  rewrite IH. apply Permutation_swap.
Qed.

Lemma sortBy_cons x l : sortBy cmp (x :: l) = insertBy cmp x (sortBy cmp l).
Proof. reflexivity. Qed.

Lemma sortBy_perm l : sortBy cmp l ≡ₚ l.
Proof.
  induction l as [|x l IH]; [reflexivity|].
  rewrite sortBy_cons, insertBy_perm, IH. reflexivity.
Qed.

Lemma insertBy_sorted x l :
  Q x -> Forall Q l -> StronglySorted (keyLe key) l ->
  StronglySorted (keyLe key) (insertBy cmp x l).
Proof.
  intros Hx Hl Hs. induction l as [|y l IH]; cbn.
  - repeat constructor.
  - apply Forall_cons_1 in Hl as [Hy Hl].
    apply StronglySorted_inv in Hs as [Hs Hyl].
    rewrite cmp_key by assumption.
    destruct (key x ?= key y)%Z eqn:Hc.
    + apply Z.compare_eq in Hc. constructor; [constructor; assumption|].
      constructor; [unfold keyLe; lia|].
      eapply Forall_impl; [exact Hyl|]. unfold keyLe. intros; lia.
    + rewrite Z.compare_lt_iff in Hc. constructor; [constructor; assumption|].
      constructor; [unfold keyLe; lia|].
      eapply Forall_impl; [exact Hyl|]. unfold keyLe. intros; lia.
    + rewrite Z.compare_gt_iff in Hc. constructor; [apply IH; assumption|].
      rewrite insertBy_perm. constructor; [unfold keyLe; lia | assumption].
Qed.

Lemma sortBy_sorted l : Forall Q l -> StronglySorted (keyLe key) (sortBy cmp l).
Proof.
  induction l as [|x l IH]; intros Hl; [constructor|].
  apply Forall_cons_1 in Hl as [Hx Hl]. rewrite sortBy_cons.
  apply insertBy_sorted; [assumption| |apply IH; assumption].
  rewrite sortBy_perm. assumption.
Qed.

Lemma insertBy_stable z x l :
  Q x -> Forall Q l ->
  List.filter (fun a => key a =? z)%Z (insertBy cmp x l)
  = List.filter (fun a => key a =? z)%Z (x :: l).
Proof.
  intros Hx Hl. induction l as [|y l IH]; [reflexivity|].
  apply Forall_cons_1 in Hl as [Hy Hl]. cbn [insertBy].
  rewrite cmp_key by assumption.
  destruct (key x ?= key y)%Z eqn:Hc; try reflexivity.
  rewrite Z.compare_gt_iff in Hc.
  cbn [List.filter]. rewrite (IH Hl). cbn [List.filter].
  destruct (key x =? z)%Z eqn:Hxz; [|reflexivity].
  apply Z.eqb_eq in Hxz.
  assert ((key y =? z)%Z = false) as -> by (apply Z.eqb_neq; lia).
  reflexivity.
Qed.

Lemma sortBy_stable z l :
  Forall Q l ->
  List.filter (fun a => key a =? z)%Z (sortBy cmp l)
  = List.filter (fun a => key a =? z)%Z l.
Proof.
  induction l as [|x l IH]; intros Hl; [reflexivity|].
  apply Forall_cons_1 in Hl as [Hx Hl]. rewrite sortBy_cons.
  rewrite insertBy_stable; [|assumption|].
  - cbn [List.filter]. rewrite (IH Hl). reflexivity.
  - rewrite sortBy_perm. assumption.
Qed.

End StableSort.

Lemma compareRank_key (a b : record) :
  wholeRank a -> wholeRank b ->
  compareRank stringToNumber a b = (rankKey a ?= rankKey b)%Z.
Proof.
  unfold wholeRank, compareRank, rankKey, SENTINEL.
  destruct (a !! js "rank") as [[s|[m [|e]| | |]|]|];
    destruct (b !! js "rank") as [[s'|[m' [|e']| | |]|]|];
    intros Ha Hb; try contradiction;
    cbn [coalesce nullish toNumber numSub numSign Z.of_nat Nat.add];
    rewrite Z.pow_0_r, !Z.mul_1_r; symmetry; apply Z.compare_sub.
Qed.

Lemma rankKey_nullish (a : record) :
  nullish (a !! js "rank") = true -> rankKey a = 999999%Z.
Proof.
  unfold rankKey. destruct (a !! js "rank") as [[| |]|]; try discriminate; auto.
Qed.

Lemma StronglySorted_lookup {A} (R : A -> A -> Prop) (l : list A) (i j : nat) a b :
  StronglySorted R l -> l !! i = Some a -> l !! j = Some b -> (i < j)%nat -> R a b.
Proof.
  intros Hs. revert i j. induction Hs as [|x l Hs IH Hx]; intros i j Ha Hb Hij.
  - discriminate.
  - destruct j as [|j]; [lia|]. destruct i as [|i].
    + injection Ha as <-. cbn in Hb.
      eapply Forall_lookup_1 in Hx; [exact Hx | exact Hb].
    + cbn in Ha, Hb. apply (IH i j); [assumption | assumption | lia].
Qed.

Lemma sortedByRank_keyed (Q : record -> Prop) (rs : list record) :
  (forall a b, Q a -> Q b ->
               compareRank stringToNumber a b = (rankKey a ?= rankKey b)%Z) ->
  Forall Q rs ->
  exists out, sortResults stringToNumber rs = Return out /\ sortedByRank rs out.
Proof.
  intros Hkey Hrs. unfold sortedByRank. destruct rs as [|first rest].
  - exists []. split; reflexivity.
  - unfold sortResults. cbn [length Nat.ltb Nat.leb element lookup list_lookup bind].
    destruct (nullish (first !! js "rank")).
    + eexists. split; reflexivity.
    + eexists. split; [reflexivity|].
      assert (StronglySorted (keyLe rankKey)
                (sortBy (compareRank stringToNumber) (first :: rest))) as Hs.
      { apply (sortBy_sorted _ rankKey Q); assumption. }
      split; [apply sortBy_perm|]. split; [exact Hs|]. split.
      * intros z. apply (sortBy_stable _ rankKey Q); assumption.
      * intros i j a b Ha Hb Hij Hnull.
        rewrite <- (rankKey_nullish a Hnull).
        exact (StronglySorted_lookup _ _ i j a b Hs Ha Hb Hij).
Qed.

Lemma sortResults_wholeRank (rs : list record) :
  Forall wholeRank rs ->
  exists out, sortResults stringToNumber rs = Return out /\ sortedByRank rs out.
Proof. apply sortedByRank_keyed, compareRank_key. Qed.

Lemma sentinel_below_overflow : (999999 < OVERFLOW)%Z.
Proof. reflexivity. Qed.

(** The comparison on ranks converted from runs of digits: Infinity is
    above every finite rank and above the sentinel, and level with
    itself (the subtraction gives NaN, which the sort reads as zero). *)
Lemma compareRank_digitKey (a b : record) :
  digitRank a -> digitRank b ->
  compareRank stringToNumber a b = (rankKey a ?= rankKey b)%Z.
Proof.
  pose proof sentinel_below_overflow as Hsent.
  unfold digitRank, compareRank, rankKey, SENTINEL.
  destruct (a !! js "rank") as [[s|[m [|e]| | |]|]|];
    destruct (b !! js "rank") as [[s'|[m' [|e']| | |]|]|];
    intros Ha Hb; try contradiction;
    cbn [coalesce nullish toNumber numSub numSign Z.of_nat Nat.add];
    rewrite ?Z.pow_0_r, ?Z.mul_1_r; symmetry;
    try apply Z.compare_sub;
    try (apply Z.compare_lt_iff; lia);
    try (apply Z.compare_gt_iff; lia);
    try apply Z.compare_refl.
Qed.

Lemma coerceRank_digitRank v :
  match coerceRank stringToNumber numberToString v with
  | VNull | VNum PosInf => True
  | VNum (Fin m 0) => (0 <= m < OVERFLOW)%Z
  | _ => False
  end.
Proof.
  unfold coerceRank.
  assert (match (match search matchRankAt
                         (trim (toStr numberToString (Some v))) with
                 | Some ds => VNum (stringToNumber ds)
                 | None => VNull
                 end) with
          | VNull | VNum PosInf => True
          | VNum (Fin m 0) => (0 <= m < OVERFLOW)%Z
          | _ => False
          end) as H.
  { rewrite search_rank_trim.
    destruct (firstDigitRun (toStr numberToString (Some v))) as [ds|] eqn:Hrun;
      [|exact I].
    destruct (firstDigitRun_digits _ _ Hrun) as [Hne Hds].
    destruct (stringToNumber_digits ds Hne Hds) as [->|(n & Hn & ->)];
      [exact I | exact Hn]. }
  destruct v; [exact H | exact H | exact I].
Qed.

(** The records the loop produces have a null rank or one converted from
    a run of digits, unless the metadata sets the key rank. *)
Lemma buildRecord_digitRank fh opts produced r :
  meta opts !! js "rank" = None ->
  digitRank (buildRecord toLowerCase stringToNumber numberToString fh opts produced r).
Proof.
  intros Hmeta. unfold digitRank.
  rewrite buildRecord_field by (discriminate || assumption).
  rewrite coerceFields_rank.
  destruct (assignKeys toLowerCase fh r !! js "rank") as [v|]; [|exact I].
  cbn [fmap option_fmap option_map]. apply coerceRank_digitRank.
Qed.

Lemma Forall_imap {A B} (P : B -> Prop) (f : nat -> A -> B) (l : list A) :
  (forall i x, P (f i x)) -> Forall P (imap f l).
Proof.
  revert f. induction l as [|x l IH]; intros f Hf; [constructor|].
  rewrite imap_cons. constructor; [apply Hf|].
  apply IH. intros i y. apply Hf.
Qed.

Lemma produced_digitRank fh opts rows out :
  meta opts !! js "rank" = None ->
  processRows toLowerCase stringToNumber numberToString fh opts rows [] = Return out ->
  Forall digitRank out.
Proof.
  intros Hmeta. rewrite processRows_kept. intros [= <-]. cbn [app].
  apply Forall_imap. intros i r. apply buildRecord_digitRank, Hmeta.
Qed.

(** When the metadata sets the key rank, every record holds the same
    string there: the comparison gives zero or NaN on each pair, and the
    sort leaves the order as it is. *)
Lemma numSign_sub_self x : numSign (numSub x x) = Eq.
Proof.
  destruct x as [m e| | |]; try reflexivity.
  cbn [numSub numSign]. rewrite Z.sub_diag. reflexivity.
Qed.

Lemma sortResults_same_string (s : jsstring) (rs : list record) :
  Forall (fun r : record => r !! js "rank" = Some (VStr s)) rs ->
  sortResults stringToNumber rs = Return rs.
Proof.
  intros Hrs.
  assert (sortBy (compareRank stringToNumber) rs = rs) as Hsort.
  { induction Hrs as [|r rest Hr Hrest IH]; [reflexivity|].
    rewrite sortBy_cons, IH. destruct Hrest as [|r' rest' Hr' _]; [reflexivity|].
    cbn [insertBy]. unfold compareRank. rewrite Hr, Hr'.
    cbn [coalesce nullish toNumber]. rewrite numSign_sub_self. reflexivity. }
  destruct rs as [|first rest]; [reflexivity|].
  unfold sortResults. cbn [length Nat.ltb Nat.leb element lookup list_lookup bind].
  rewrite Hsort. destruct (nullish _); reflexivity.
Qed.


Lemma processRows_Forall (P : record -> Prop) fh opts rows results out :
  (forall produced r, P (buildRecord toLowerCase stringToNumber numberToString fh opts produced r)) ->
  Forall P results ->
  processRows toLowerCase stringToNumber numberToString fh opts rows results = Return out ->
  Forall P out.
Proof.
  intros Hb Hres. rewrite processRows_kept. intros [= <-].
  apply Forall_app. split; [assumption|].
  apply Forall_imap. intros i x. apply Hb.
Qed.

Lemma sortedByRank_same_string (s : jsstring) (rs : list record) :
  Forall (fun r : record => r !! js "rank" = Some (VStr s)) rs ->
  sortedByRank rs rs.
Proof.
  intros Hrs. unfold sortedByRank. destruct rs as [|first rest]; [reflexivity|].
  assert (Forall (fun r => rankKey r = 999999%Z) (first :: rest)) as Hkeys.
  { eapply Forall_impl; [exact Hrs|]. intros r Hr. unfold rankKey.
    rewrite Hr. reflexivity. }
  apply Forall_cons_1 in Hrs as [-> _]. cbn [nullish].
  split; [reflexivity|]. split; [|split; [reflexivity|]].
  - clear -Hkeys. induction Hkeys as [|r l Hr Hl IH]; constructor; [exact IH|].
    eapply Forall_impl; [exact Hl|]. intros r' Hr'. unfold keyLe.
    cbn beta in Hr, Hr'. lia.
  - intros i j a b _ Hb _ _.
    eapply Forall_lookup_1 in Hkeys; [|exact Hb]. cbn beta in Hkeys. lia.
Qed.

(** C1 (amended): for every sequence the loop produces, when the first
    record has a non-null rank the sequence is sorted stably and
    ascending by rank, a record without rank counting as rank 999999, so
    that such a record comes after every record ranked below 999999 (and
    before those ranked above); a rank that the runtime reads as Infinity
    comes after every finite rank, and ranks read as the same number keep
    their order; when the first record has no rank, the sequence is
    returned in extraction order whatever the ranks of the later
    records.  Ranks 3, none, 1, 2 come out as 1, 2, 3, none. *)
Theorem sort_by_rank fh opts rows :
  (exists produced out,
      processRows toLowerCase stringToNumber numberToString fh opts rows [] = Return produced
      /\ sortResults stringToNumber produced = Return out
      /\ sortedByRank produced out)
  /\ ranksOf (sortResults stringToNumber
                [ranked 3; rankless; ranked 1; ranked 2])
     = map (fun r : record => r !! js "rank")
         [ranked 1; ranked 2; ranked 3; rankless].
Proof.
  split; [|reflexivity].
  destruct (processRows toLowerCase stringToNumber numberToString fh opts rows []) as [produced|] eqn:Hrows;
    [|rewrite processRows_kept in Hrows; discriminate].
  exists produced.
  destruct (meta opts !! js "rank") as [s|] eqn:Hmeta.
  - assert (Forall (fun r : record => r !! js "rank" = Some (VStr s)) produced)
      as Hsame.
    { eapply processRows_Forall; [|constructor|exact Hrows].
      intros. apply buildRecord_meta; [discriminate | assumption]. }
    exists produced. split; [reflexivity|].
    split; [apply (sortResults_same_string s), Hsame|].
    apply (sortedByRank_same_string s), Hsame.
  - destruct (sortedByRank_keyed digitRank produced compareRank_digitKey)
      as (out & Hout & Hsorted).
    { eapply produced_digitRank; [exact Hmeta | exact Hrows]. }
    exists out. auto.
Qed.

Lemma sortResults_total (rs : list record) :
  exists out, sortResults stringToNumber rs = Return out /\ out ≡ₚ rs.
Proof.
  destruct rs as [|first rest]; [exists []; split; reflexivity|].
  unfold sortResults. cbn [length Nat.ltb Nat.leb element lookup list_lookup bind].
  destruct (nullish _); eexists; (split; [reflexivity|]);
    [reflexivity | apply sortBy_perm].
Qed.

(** ** The conversion never throws *)

Lemma parseMarkdownTable_total lines :
  exists t, parseMarkdownTable lines = Return t.
Proof.
  unfold parseMarkdownTable.
  destruct (List.filter _ lines) as [|l tableLines]; [eexists; reflexivity|].
  destruct (length (l :: tableLines) <? 2)%nat; eexists; reflexivity.
Qed.

Lemma extractTable_total fmt lines :
  exists t, extractTable toLowerCase fmt lines = Return t.
Proof.
  destruct fmt; cbn [extractTable];
    [apply parseMarkdownTable_total | | |];
    destruct (foundHeader toLowerCase lines); eexists; reflexivity.
Qed.

(** C9: for every input text and every options structure, the conversion
    returns a record sequence; no property of an undefined value is ever
    read. *)
Theorem parseInput_total text opts :
  exists rs, parseInput toLowerCase stringToNumber numberToString text opts = Return rs.
Proof.
  unfold parseInput.
  destruct (extractTable_total (detectFormat text) (linesAll text)) as [t ->].
  cbn [bind]. rewrite processRows_kept. cbn [bind].
  destruct (sortResults_total
              ([] ++ imap (fun i r =>
                             buildRecord toLowerCase stringToNumber numberToString
                               (resolveHeader (columns opts) (fst t)) opts
                               (length (@nil record) + i) r)
                       (List.filter (fun r => negb (isJunk toLowerCase r)) (snd t))))
    as (out & -> & _).
  exists out. reflexivity.
Qed.

(** C10: the metadata is merged after the identifier is made, so a key id
    of the metadata replaces the synthesized identifier: in every record
    built for a row, and so in every record returned, the field id holds
    the metadata value.  The same holds of every key of the metadata that
    can name an own property. *)
Theorem metadata_overrides_id text opts v :
  meta opts !! js "id" = Some v ->
  (forall fh produced r,
      buildRecord toLowerCase stringToNumber numberToString fh opts produced r !! js "id" = Some (VStr v))
  /\ (forall fh produced r (k w : jsstring),
         k <> js "__proto__" -> meta opts !! k = Some w ->
         buildRecord toLowerCase stringToNumber numberToString fh opts produced r !! k = Some (VStr w))
  /\ exists rs,
       parseInput toLowerCase stringToNumber numberToString text opts = Return rs
       /\ Forall (fun rec : record => rec !! js "id" = Some (VStr v)) rs.
Proof.
  intros Hv.
  assert (forall fh produced r,
             buildRecord toLowerCase stringToNumber numberToString fh opts produced r !! js "id"
             = Some (VStr v)) as Hb.
  { intros. apply buildRecord_meta; [discriminate | assumption]. }
  split; [exact Hb|].
  split; [intros; apply buildRecord_meta; assumption|].
  unfold parseInput.
  destruct (extractTable_total (detectFormat text) (linesAll text)) as [t ->].
  cbn [bind].
  destruct (processRows toLowerCase stringToNumber numberToString _ opts (snd t) []) as [results|] eqn:Hrows;
    [|rewrite processRows_kept in Hrows; discriminate].
  cbn [bind].
  destruct (sortResults_total results) as (out & -> & Hperm).
  exists out. split; [reflexivity|].
  rewrite Hperm.
  eapply processRows_Forall; [|constructor|exact Hrows].
  intros. apply Hb.
Qed.

(** ** Markdown tables *)

Lemma plainSpace_space c : isSpace (plainSpace c) = isSpace c.
Proof.
  unfold plainSpace. destruct (N.eqb_spec c NBSP) as [->|]; reflexivity.
Qed.

Lemma plainSpace_eqb c d :
  isSpace d = false \/ d = LF \/ d = CR ->
  (plainSpace c =? d) = (c =? d).
Proof.
  intros Hd. unfold plainSpace. destruct (N.eqb_spec c NBSP) as [->|]; [|reflexivity].
  destruct Hd as [Hd|[->| ->]]; [|reflexivity|reflexivity].
  destruct (N.eqb_spec SP d) as [<-|]; [discriminate|].
  destruct (N.eqb_spec NBSP d) as [<-|]; [discriminate|]. reflexivity.
Qed.

Lemma map_consHead (f : N -> N) c pieces :
  map (map f) (consHead c pieces) = consHead (f c) (map (map f) pieces).
Proof. destruct pieces; reflexivity. Qed.

Lemma splitLines_cons c s :
  splitLines (c :: s)
  = if c =? LF then [] :: splitLines s
    else if c =? CR then
      match s with
      | d :: s'' => if d =? LF then [] :: splitLines s''
                    else consHead c (splitLines s)
      | [] => consHead c (splitLines s)
      end
    else consHead c (splitLines s).
Proof. reflexivity. Qed.

Lemma splitLines_map (f : N -> N) :
  (forall c, (f c =? LF) = (c =? LF)) ->
  (forall c, (f c =? CR) = (c =? CR)) ->
  forall s, splitLines (map f s) = map (map f) (splitLines s).
Proof.
  intros Hlf Hcr s.
  enough (splitLines (map f s) = map (map f) (splitLines s)
          /\ forall c, splitLines (map f (c :: s)) = map (map f) (splitLines (c :: s)))
    as [H _] by exact H.
  induction s as [|d s [IH1 IH2]].
  - split; [reflexivity|]. intros c. cbn. rewrite Hlf, Hcr.
    destruct (c =? LF); [reflexivity|]. destruct (c =? CR); reflexivity.
  - split; [apply IH2|]. intros c.
    change (map f (c :: d :: s)) with (f c :: map f (d :: s)).
    rewrite (splitLines_cons (f c)), (splitLines_cons c), Hlf, Hcr.
    change (map f (d :: s)) with (f d :: map f s) at 2. cbv iota. rewrite Hlf.
    destruct (c =? LF); [cbn [map]; f_equal; apply IH2|].
    destruct (c =? CR).
    + destruct (d =? LF); [cbn [map]; f_equal; exact IH1|].
      rewrite map_consHead. f_equal. apply IH2.
    + rewrite map_consHead. f_equal. apply IH2.
Qed.

Lemma dropWhile_map (p : N -> bool) (f : N -> N) s :
  (forall c, p (f c) = p c) -> dropWhile p (map f s) = map f (dropWhile p s).
Proof.
  intros Hp. induction s as [|c s IH]; [reflexivity|].
  cbn. rewrite Hp. destruct (p c); [exact IH | reflexivity].
Qed.

Lemma dropWhileEnd_map (p : N -> bool) (f : N -> N) s :
  (forall c, p (f c) = p c) -> dropWhileEnd p (map f s) = map f (dropWhileEnd p s).
Proof.
  intros Hp. induction s as [|c s IH]; [reflexivity|].
  cbn. rewrite IH, Hp.
  destruct (dropWhileEnd p s); cbn; [destruct (p c)|]; reflexivity.
Qed.

Lemma dropWhileEnd_idem (p : N -> bool) s :
  dropWhileEnd p (dropWhileEnd p s) = dropWhileEnd p s.
Proof.
  induction s as [|c s IH]; [reflexivity|].
  cbn [dropWhileEnd]. destruct (dropWhileEnd p s) as [|d r] eqn:Hd.
  - destruct (p c) eqn:Hc; [reflexivity|]. cbn. rewrite Hc. reflexivity.
  - cbn [dropWhileEnd] in *. rewrite IH. reflexivity.
Qed.

Lemma trim_trimEnd s : trim (trimEnd s) = trim s.
Proof.
  unfold trim, trimEnd.
  rewrite dropWhile_dropWhileEnd, dropWhileEnd_idem. reflexivity.
Qed.

Lemma trim_cleanLine l : trim (cleanLine l) = map plainSpace (trim l).
Proof.
  unfold cleanLine. rewrite trim_trimEnd. unfold trim.
  rewrite dropWhile_map, dropWhileEnd_map by apply plainSpace_space.
  reflexivity.
Qed.

Lemma isBlank_cleanLine l : isBlank (cleanLine l) = isBlank l.
Proof. unfold isBlank. rewrite trim_cleanLine, length_map. reflexivity. Qed.

Lemma startsWith_bar_cleanLine l :
  startsWith (trim (cleanLine l)) [PIPE] = startsWith (trim l) [PIPE].
Proof.
  rewrite trim_cleanLine. destruct (trim l) as [|c t]; [reflexivity|].
  cbn [map startsWith].
  rewrite !(N.eqb_sym PIPE), plainSpace_eqb by (left; reflexivity).
  rewrite !startsWith_nil. reflexivity.
Qed.

Lemma filter_map_comm {A B} (p : B -> bool) (g : A -> B) (l : list A) :
  List.filter p (map g l) = map g (List.filter (fun x => p (g x)) l).
Proof.
  induction l as [|x l IH]; [reflexivity|].
  cbn. destruct (p (g x)); cbn; rewrite IH; reflexivity.
Qed.

Lemma filter_all_bool {A} (p : A -> bool) (l : list A) :
  forallb p l = true -> List.filter p l = l.
Proof.
  induction l as [|x l IH]; cbn; [reflexivity|].
  intros H. apply andb_true_iff in H as [Hx Hl].
  rewrite Hx, IH by assumption. reflexivity.
Qed.

Lemma forallb_map {A B} (p : B -> bool) (g : A -> B) (l : list A) :
  forallb p (map g l) = forallb (fun x => p (g x)) l.
Proof. induction l as [|x l IH]; cbn; [|rewrite IH]; reflexivity. Qed.

Lemma filter_ext_bool {A} (p q : A -> bool) (l : list A) :
  (forall x, p x = q x) -> List.filter p l = List.filter q l.
Proof.
  intros H. induction l as [|x l IH]; [reflexivity|].
  cbn. rewrite H, IH. reflexivity.
Qed.

(** The lines the conversion works on are the non-blank lines of the
    text, each cleaned. *)
Lemma linesAll_clean text : linesAll text = map cleanLine (nonBlankLines text).
Proof.
  unfold linesAll, nonBlankLines.
  rewrite splitLines_map
    by (intros c; apply plainSpace_eqb;
        first [right; left; reflexivity | right; right; reflexivity]).
  rewrite map_map. fold cleanLine.
  change (fun x => trimEnd (map plainSpace x)) with cleanLine.
  rewrite filter_map_comm. f_equal.
  apply filter_ext_bool. intros l. rewrite isBlank_cleanLine. reflexivity.
Qed.

Lemma dropWhile_In (p : N -> bool) c s : In c (dropWhile p s) -> In c s.
Proof.
  induction s as [|d s IH]; [auto|].
  cbn [dropWhile]. destruct (p d); [right; auto | auto].
Qed.

Lemma dropWhileEnd_In (p : N -> bool) c s : In c (dropWhileEnd p s) -> In c s.
Proof.
  induction s as [|d s IH]; [auto|].
  cbn [dropWhileEnd]. destruct (dropWhileEnd p s) as [|e r].
  - destruct (p d); [intros [] | intros [->|[]]; left; reflexivity].
  - intros [->|H]; [left; reflexivity | right; auto].
Qed.

Lemma includes_In c s : In c s -> includes s [c] = true.
Proof.
  induction s as [|d s IH]; [intros []|].
  intros [->|H]; cbn [includes startsWith].
  - rewrite N.eqb_refl, startsWith_nil. reflexivity.
  - rewrite IH by assumption. apply orb_true_r.
Qed.

Lemma bar_line_is_table_line l :
  startsWith (trim l) [PIPE] = true -> isTableLine l = true.
Proof.
  intros H. unfold isTableLine. rewrite H, andb_true_r.
  apply includes_In. unfold trim in H.
  apply (dropWhile_In isSpace), (dropWhileEnd_In isSpace).
  destruct (dropWhileEnd isSpace (dropWhile isSpace l)) as [|c t]; [discriminate|].
  cbn [startsWith] in H. apply andb_true_iff in H as [H _]. apply N.eqb_eq in H.
  left. congruence.
Qed.

Lemma markdownTable_detected text h sep data :
  markdownTable text h sep data -> detectFormat text = Md.
Proof.
  intros [Hlines Hbars]. rewrite detectFormat_detectChain, Hlines.
  unfold detectChain. cbn [existsb].
  apply Forall_cons_1 in Hbars as [Hh _].
  rewrite (bar_line_is_table_line _ Hh). reflexivity.
Qed.

Lemma markdownTable_extracted text h sep data :
  markdownTable text h sep data ->
  parseMarkdownTable (linesAll text)
  = Return (Some (pipeCells (cleanLine h)),
            map (fun l => pipeCells (cleanLine l)) data).
Proof.
  intros [Hlines Hbars]. rewrite linesAll_clean, Hlines.
  unfold parseMarkdownTable.
  rewrite filter_map_comm.
  rewrite (filter_ext_bool _ (fun l => startsWith (trim l) [PIPE]))
    by apply startsWith_bar_cleanLine.
  assert (List.filter (fun l => startsWith (trim l) [PIPE]) (h :: sep :: data)
          = h :: sep :: data) as ->.
  { clear Hlines. induction Hbars as [|l ls Hl _ IH]; [reflexivity|].
    cbn. rewrite Hl, IH. reflexivity. }
  cbn [map length Nat.ltb Nat.leb element lookup list_lookup bind drop].
  rewrite drop_0, map_map. reflexivity.
Qed.

(** C2 (amended): for a text that is a markdown table of a header line, a
    separator line and N data rows, the conversion returns the records of
    the data rows that the junk filter keeps, and nothing else: as many
    records as kept data rows, N of them when no data row is discarded;
    the separator line is skipped whatever it holds, so it never becomes
    a record. *)
Theorem markdown_table_records text opts h sep data :
  markdownTable text h sep data ->
  let finalHeader := resolveHeader (columns opts) (Some (pipeCells (cleanLine h))) in
  let kept :=
    List.filter (fun r => negb (isJunk toLowerCase r))
      (map (fun l => pipeCells (cleanLine l)) data) in
  exists rs,
    parseInput toLowerCase stringToNumber numberToString text opts = Return rs
    /\ rs ≡ₚ imap (buildRecord toLowerCase stringToNumber numberToString finalHeader opts) kept
    /\ length rs = length kept
    /\ (forallb (fun l => negb (isJunk toLowerCase (pipeCells (cleanLine l)))) data
        = true -> length rs = length data).
Proof.
  intros Htable finalHeader kept. unfold parseInput.
  rewrite (markdownTable_detected _ _ _ _ Htable). cbn [extractTable].
  rewrite (markdownTable_extracted _ _ _ _ Htable). cbn [bind fst snd].
  rewrite processRows_kept. cbn [bind app length Nat.add].
  fold finalHeader. fold kept.
  destruct (sortResults_total
              (imap (fun i r => buildRecord toLowerCase stringToNumber numberToString finalHeader opts i r) kept))
    as (out & -> & Hperm).
  exists out. split; [reflexivity|]. split; [exact Hperm|].
  assert (length out = length kept) as Hlen
      by (rewrite Hperm; apply length_imap).
  split; [exact Hlen|].
  intros Hkeep. rewrite Hlen. subst kept.
  rewrite <- (length_map (fun l => pipeCells (cleanLine l)) data).
  f_equal. apply filter_all_bool.
  rewrite forallb_map. exact Hkeep.
Qed.

(** * Further properties of the conversion *)

(** ** Lines *)

Lemma splitLines_plain l :
  noBreak l = true -> splitLines l = [l].
Proof.
  induction l as [|c l IH]; [reflexivity|].
  intros H. apply forallb_cons_inv in H as [Hc Hl].
  apply andb_true_iff in Hc as [Hlf Hcr].
  apply negb_true_iff in Hlf, Hcr.
  rewrite splitLines_cons, Hlf, Hcr, (IH Hl). reflexivity.
Qed.

Lemma splitLines_app_LF l t :
  noBreak l = true -> splitLines (l ++ LF :: t) = l :: splitLines t.
Proof.
  induction l as [|c l IH]; [reflexivity|].
  intros H. apply forallb_cons_inv in H as [Hc Hl].
  apply andb_true_iff in Hc as [Hlf Hcr].
  apply negb_true_iff in Hlf, Hcr.
  cbn [app]. rewrite splitLines_cons, Hlf, Hcr, (IH Hl). reflexivity.
Qed.

Lemma splitLines_app_CRLF l t :
  noBreak l = true -> splitLines (l ++ CR :: LF :: t) = l :: splitLines t.
Proof.
  induction l as [|c l IH]; [reflexivity|].
  intros H. apply forallb_cons_inv in H as [Hc Hl].
  apply andb_true_iff in Hc as [Hlf Hcr].
  apply negb_true_iff in Hlf, Hcr.
  cbn [app]. rewrite splitLines_cons, Hlf, Hcr, (IH Hl). reflexivity.
Qed.

Lemma join_cons sep (x y : jsstring) rest :
  join sep (x :: y :: rest) = x ++ sep ++ join sep (y :: rest).
Proof. reflexivity. Qed.

(** X1: a text made of lines without line breaks, joined by a line feed
    or by a carriage return and a line feed, is read back as those
    lines. *)
Theorem lines_read_back (l : jsstring) (ls : list jsstring) :
  Forall (fun x => noBreak x = true) (l :: ls) ->
  splitLines (join [LF] (l :: ls)) = l :: ls
  /\ splitLines (join [CR; LF] (l :: ls)) = l :: ls.
Proof.
  revert l. induction ls as [|y ls IH]; intros l H.
  - apply Forall_cons_1 in H as [Hl _].
    split; apply splitLines_plain, Hl.
  - apply Forall_cons_1 in H as [Hl Hrest].
    destruct (IH y Hrest) as [IH1 IH2].
    rewrite !join_cons. cbn [app]. split.
    + rewrite splitLines_app_LF, IH1 by assumption. reflexivity.
    + rewrite splitLines_app_CRLF, IH2 by assumption. reflexivity.
Qed.

Lemma consHead_Forall (P : jsstring -> Prop) c pieces :
  (forall x, P x -> P (c :: x)) -> P [c] ->
  Forall P pieces -> Forall P (consHead c pieces).
Proof.
  intros Hc H1 H. destruct H as [|x xs Hx Hxs]; cbn.
  - repeat constructor. exact H1.
  - constructor; [apply Hc, Hx | exact Hxs].
Qed.

(** The pieces of a split on line breaks hold no line feed, and only
    code units of the text. *)
Lemma splitLines_pieces s :
  Forall (fun p => forall c, In c p -> In c s /\ c <> LF) (splitLines s).
Proof.
  enough (Forall (fun p => forall c, In c p -> In c s /\ c <> LF) (splitLines s)
          /\ forall d, Forall (fun p => forall c, In c p -> In c (d :: s) /\ c <> LF)
                         (splitLines (d :: s)))
    as [H _] by exact H.
  induction s as [|e s [IH1 IH2]].
  - split; [constructor; [intros c []|constructor]|].
    intros d. rewrite splitLines_cons.
    destruct (N.eqb_spec d LF) as [->|Hlf].
    + constructor; [intros c []|]. constructor; [intros c []|constructor].
    + assert (Forall (fun p => forall c, In c p -> In c [d] /\ c <> LF)
                (consHead d (splitLines []))) as H.
      { cbn. constructor; [|constructor].
        intros c [<-|[]]. split; [left; reflexivity | exact Hlf]. }
      destruct (d =? CR); exact H.
  - split; [apply IH2|]. intros d.
    assert (forall (t : jsstring) (P : jsstring -> Prop),
               Forall (fun p => forall c, In c p -> In c t /\ c <> LF) (splitLines t) ->
               (forall c, In c t -> In c (d :: e :: s)) ->
               Forall (fun p => forall c, In c p -> In c (d :: e :: s) /\ c <> LF)
                 (splitLines t)) as Hweak.
    { intros t _ Ht Hin. eapply Forall_impl; [exact Ht|].
      intros p Hp c Hc. destruct (Hp c Hc). split; auto. }
    assert (d <> LF ->
            Forall (fun p => forall c, In c p -> In c (d :: e :: s) /\ c <> LF)
              (consHead d (splitLines (e :: s)))) as Hkeep.
    { intros Hlf. apply consHead_Forall.
      - intros x Hx c [<-|Hc]; [split; [left; reflexivity | exact Hlf]|].
        apply Hx, Hc.
      - intros c [<-|[]]. split; [left; reflexivity | exact Hlf].
      - apply (Hweak (e :: s) (fun _ => True)); [apply IH2|].
        intros c Hc. right. exact Hc. }
    rewrite splitLines_cons.
    destruct (N.eqb_spec d LF) as [->|Hlf].
    + constructor; [intros c []|].
      apply (Hweak (e :: s) (fun _ => True)); [apply IH2|].
      intros c Hc. right. exact Hc.
    + destruct (d =? CR); [|apply Hkeep, Hlf].
      destruct (e =? LF); [|apply Hkeep, Hlf].
      constructor; [intros c []|].
      apply (Hweak s (fun _ => True)); [exact IH1|].
      intros c Hc. right. right. exact Hc.
Qed.

Lemma plainSpace_not_NBSP c : plainSpace c <> NBSP.
Proof.
  unfold plainSpace. destruct (N.eqb_spec c NBSP); [discriminate | assumption].
Qed.

(** X2: every line the conversion works on is not blank, has no white
    space at its end, and holds neither a line feed nor a no-break
    space. *)
Theorem working_lines_are_clean text :
  Forall (fun l => isBlank l = false
                   /\ trimEnd l = l
                   /\ ~ In LF l
                   /\ ~ In NBSP l)
    (linesAll text).
Proof.
  unfold linesAll. apply Forall_forall. intros l Hl.
  apply list_elem_of_In, filter_In in Hl as [Hl Hblank].
  apply negb_true_iff in Hblank.
  apply in_map_iff in Hl as (p & <- & Hp).
  pose proof (splitLines_pieces (map plainSpace text)) as Hpieces.
  rewrite Forall_forall in Hpieces.
  specialize (Hpieces p (proj2 (list_elem_of_In _ _) Hp)).
  split; [exact Hblank|]. split; [apply dropWhileEnd_idem|]. split.
  - intros H. apply dropWhileEnd_In, Hpieces in H as [_ H]. apply H. reflexivity.
  - intros H. apply dropWhileEnd_In, Hpieces in H as [H _].
    apply in_map_iff in H as (c & Hc & _).
    exact (plainSpace_not_NBSP c Hc).
Qed.

(** ** Cells *)

Lemma splitOn_nonempty d s : splitOn d s <> [].
Proof.
  destruct s as [|c s]; cbn; [discriminate|].
  destruct (c =? d); [discriminate|]. destruct (splitOn d s); discriminate.
Qed.

Lemma join_consHead sep c pieces :
  pieces <> [] -> join sep (consHead c pieces) = c :: join sep pieces.
Proof.
  destruct pieces as [|x [|y rest]]; [contradiction|reflexivity|reflexivity].
Qed.

Lemma join_splitOn d s : join [d] (splitOn d s) = s.
Proof.
  induction s as [|c s IH]; [reflexivity|].
  cbn [splitOn]. destruct (N.eqb_spec c d) as [->|Hc].
  - pose proof (splitOn_nonempty d s) as Hne.
    destruct (splitOn d s) as [|x rest] eqn:Hs; [contradiction|].
    rewrite join_cons, IH. reflexivity.
  - rewrite join_consHead by apply splitOn_nonempty. rewrite IH. reflexivity.
Qed.

Lemma length_consHead c pieces :
  pieces <> [] -> length (consHead c pieces) = length pieces.
Proof. destruct pieces; [contradiction | reflexivity]. Qed.

Lemma length_splitOn d s : length (splitOn d s) = S (occurrences d s).
Proof.
  unfold occurrences. induction s as [|c s IH]; [reflexivity|].
  cbn [splitOn List.filter]. rewrite (N.eqb_sym d c).
  destruct (c =? d); cbn [length]; [rewrite IH; reflexivity|].
  rewrite length_consHead by apply splitOn_nonempty. exact IH.
Qed.

Lemma splitOn_pieces d s : Forall (fun p => ~ In d p) (splitOn d s).
Proof.
  induction s as [|c s IH]; [repeat constructor; intros []|].
  cbn [splitOn]. destruct (N.eqb_spec c d) as [->|Hc].
  - constructor; [intros []|exact IH].
  - apply consHead_Forall; [| |exact IH].
    + intros x Hx [H|H]; [congruence | exact (Hx H)].
    + intros [H|[]]. congruence.
Qed.

Lemma dropWhile_stop (p : N -> bool) s :
  match s with c :: _ => p c = false | [] => True end -> dropWhile p s = s.
Proof. destruct s as [|c s]; [reflexivity|]. cbn. intros ->. reflexivity. Qed.

Lemma trim_idempotent s : trim (trim s) = trim s.
Proof.
  unfold trim at 1.
  rewrite dropWhile_stop.
  - unfold trim. apply dropWhileEnd_idem.
  - unfold trim.
    destruct (dropWhileEnd_head isSpace (dropWhile isSpace s)) as [->|Hh]; [exact I|].
    destruct (dropWhileEnd isSpace (dropWhile isSpace s)) as [|c t] eqn:Ht; [exact I|].
    cbn in Hh. symmetry in Hh. apply dropWhile_head in Hh. exact Hh.
Qed.

Lemma trim_In c s : In c (trim s) -> In c s.
Proof. unfold trim. intros H. apply dropWhileEnd_In, dropWhile_In in H. exact H. Qed.

(** X3: splitting a line on a delimiter loses nothing (joining the pieces
    with the delimiter gives the line back), and every row of
    [parseDelimited] has one cell more than its line has delimiters, each
    cell trimmed and free of the delimiter. *)
Theorem delimited_rows lines d :
  (forall s, join [d] (splitOn d s) = s)
  /\ Forall2 (fun line row =>
                length row = S (occurrences d line)
                /\ Forall (fun cell => trim cell = cell /\ ~ In d cell) row)
       lines (parseDelimited lines d).
Proof.
  split; [apply join_splitOn|].
  unfold parseDelimited. induction lines as [|l lines IH]; constructor; [|exact IH].
  split; [rewrite length_map; apply length_splitOn|].
  apply Forall_forall. intros cell Hcell.
  apply list_elem_of_In, in_map_iff in Hcell as (p & <- & Hp).
  split; [apply trim_idempotent|].
  intros H. apply trim_In in H.
  pose proof (splitOn_pieces d l) as Hpieces. rewrite Forall_forall in Hpieces.
  exact (Hpieces p (proj2 (list_elem_of_In _ _) Hp) H).
Qed.

(** *** Cells separated by wide gaps *)










(** *** The argument of --columns *)

Lemma splitOn_plain d n : ~ In d n -> splitOn d n = [n].
Proof.
  induction n as [|c n IH]; [reflexivity|].
  intros H. cbn [splitOn].
  destruct (N.eqb_spec c d) as [->|Hc]; [contradiction H; left; reflexivity|].
  rewrite IH by (intros Hin; apply H; right; exact Hin). reflexivity.
Qed.

Lemma splitOn_app d n t : ~ In d n -> splitOn d (n ++ d :: t) = n :: splitOn d t.
Proof.
  induction n as [|c n IH]; intros H.
  - cbn. rewrite N.eqb_refl. reflexivity.
  - cbn [app splitOn].
    destruct (N.eqb_spec c d) as [->|Hc]; [contradiction H; left; reflexivity|].
    rewrite IH by (intros Hin; apply H; right; exact Hin). reflexivity.
Qed.

Lemma splitOn_join d (n : jsstring) (ns : list jsstring) :
  Forall (fun x => ~ In d x) (n :: ns) -> splitOn d (join [d] (n :: ns)) = n :: ns.
Proof.
  revert n. induction ns as [|y ns IH]; intros n H.
  - apply Forall_cons_1 in H as [Hn _]. apply splitOn_plain, Hn.
  - apply Forall_cons_1 in H as [Hn Hrest].
    rewrite join_cons. cbn [app].
    rewrite splitOn_app, (IH y Hrest) by assumption. reflexivity.
Qed.

(** X5: the list of columns made of the argument of --columns holds no
    empty name and only trimmed names; names that are not empty, trimmed
    and free of commas, joined by commas, are read back as they are. *)
Theorem columns_argument :
  (forall arg cols,
      columnsOf arg = Some cols ->
      Forall (fun n => n <> [] /\ trim n = n) cols)
  /\ (forall (n : jsstring) (ns : list jsstring),
         Forall (fun x => x <> [] /\ trim x = x /\ ~ In COMMA x) (n :: ns) ->
         columnsOf (Some (join [COMMA] (n :: ns))) = Some (n :: ns)).
Proof.
  split.
  - intros [[|c s]|] cols; try discriminate. cbn [columnsOf]. intros [= <-].
    apply Forall_forall. intros n Hn.
    apply list_elem_of_In, filter_In in Hn as [Hn Hne].
    apply in_map_iff in Hn as (p & <- & _). split.
    + intros H. rewrite H in Hne. discriminate.
    + apply trim_idempotent.
  - intros n ns H.
    assert (exists c s, join [COMMA] (n :: ns) = c :: s) as (c & s & Hj).
    { apply Forall_cons_1 in H as [(Hn & _) _].
      destruct n as [|c n]; [contradiction|].
      destruct ns; [cbn; eauto | rewrite join_cons; cbn; eauto]. }
    rewrite Hj. cbn [columnsOf]. rewrite <- Hj. f_equal. clear c s Hj.
    rewrite splitOn_join
      by (eapply Forall_impl; [exact H|]; intros x (_ & _ & Hx); exact Hx).
    induction H as [|x xs (Hne & Htrim & _) _ IH]; [reflexivity|].
    cbn [map List.filter]. rewrite Htrim.
    destruct x; [contradiction|]. cbn [nonEmpty length Nat.eqb negb].
    rewrite IH. reflexivity.
Qed.

(** ** Slugs are fixed points *)

Lemma dropWhileEnd_stop (p : N -> bool) s :
  (forall z, last s = Some z -> p z = false) -> dropWhileEnd p s = s.
Proof.
  intros Hlast.
  destruct (dropWhileEnd_split p s) as (ws & Hws & Hs).
  destruct ws as [|w ws]; [rewrite app_nil_r in Hs; congruence|].
  exfalso.
  destruct (last (w :: ws)) as [y|] eqn:Hy;
    [|apply last_None in Hy; discriminate].
  assert (last s = Some y) as Hz by (rewrite Hs, last_app, Hy; reflexivity).
  specialize (Hlast y Hz).
  assert (p y = true) as Hp.
  { clear -Hws Hy. revert Hws Hy. generalize (w :: ws). intros l.
    induction l as [|x l IH]; [discriminate|].
    intros H Hy. apply andb_true_iff in H as [Hx Hl].
    destruct l; [injection Hy as <-; exact Hx | apply (IH Hl), Hy]. }
  congruence.
Qed.

Lemma collapse_fixed b z :
  forallb slugChar z = true ->
  includes z [HYPHEN; HYPHEN] = false ->
  (b = true -> head z <> Some HYPHEN) ->
  collapseFrom notAlnum HYPHEN b z = z.
Proof.
  revert b. induction z as [|c z IH]; intros b Hchars Hdouble Hhead; [reflexivity|].
  apply forallb_cons_inv in Hchars as [Hc Hz].
  apply no_double_cons in Hdouble as [Hcz Hdouble].
  cbn [collapseFrom].
  assert (notAlnum c = negb (isAlnum c)) as -> by reflexivity.
  destruct (isAlnum c) eqn:Hal; cbn [negb].
  - rewrite IH; [reflexivity|assumption|assumption|discriminate].
  - unfold slugChar in Hc. rewrite Hal in Hc. cbn [orb] in Hc.
    apply N.eqb_eq in Hc. subst c.
    destruct b; [contradiction (Hhead eq_refl); reflexivity|].
    rewrite N.eqb_refl in Hcz. cbn [andb] in Hcz.
    rewrite IH; [reflexivity|assumption|assumption|].
    intros _. destruct z as [|d z]; [discriminate|].
    cbn. intros [= ->]. rewrite N.eqb_refl in Hcz. discriminate.
Qed.

Lemma slugChar_facts c :
  slugChar c = true ->
  isAscii c = true /\ asciiLower c = c /\ notQuote c = true /\ isSpace c = false.
Proof.
  unfold slugChar. intros H. apply orb_true_iff in H as [H|H].
  - assert (isKeyChar c = true) as Hk by (unfold isKeyChar; rewrite H; reflexivity).
    split; [apply keyChar_ascii, Hk|]. split; [apply keyChar_lower, Hk|].
    split; [|apply keyChar_not_space, Hk].
    unfold notQuote. apply negb_true_iff. refute_class.
  - apply N.eqb_eq in H. subst c. repeat split; reflexivity.
Qed.

Lemma slugWords_fixed z : slugShape z -> slugWords z = z.
Proof.
  intros (Hchars & Hdouble & Hhead & Hlast). unfold slugWords, collapseRuns.
  rewrite filter_all
    by (eapply forallb_impl; [|exact Hchars]; intros c Hc; apply slugChar_facts, Hc).
  rewrite collapse_fixed by (try assumption; discriminate).
  rewrite dropWhile_stop.
  - apply dropWhileEnd_stop. intros y Hy.
    destruct (N.eqb_spec HYPHEN y) as [<-|]; [contradiction | reflexivity].
  - destruct z as [|c z]; [exact I|].
    destruct (N.eqb_spec HYPHEN c) as [<-|]; [|reflexivity].
    contradiction Hhead. reflexivity.
Qed.

(** X6: slugifying a slug returns it unchanged: [slugify] is idempotent. *)
Theorem slugify_idempotent s :
  slugify toLowerCase (slugify toLowerCase s) = slugify toLowerCase s.
Proof.
  assert (slugShape (slugify toLowerCase s)) as Hshape.
  { unfold slugify. rewrite slugify_trims_nothing_more. apply slugWords_shape. }
  set (z := slugify toLowerCase s) in *.
  unfold slugify. rewrite slugify_trims_nothing_more.
  destruct Hshape as (Hchars & Hrest).
  rewrite toLowerCase_ascii
    by (eapply forallb_impl; [|exact Hchars]; intros c Hc; apply slugChar_facts, Hc).
  assert (lowerAscii z = z) as ->.
  { clear Hrest. unfold lowerAscii. induction z as [|c z IH]; [reflexivity|].
    apply forallb_cons_inv in Hchars as [Hc Hz]. cbn [map].
    destruct (slugChar_facts c Hc) as (_ & -> & _). rewrite (IH Hz). reflexivity. }
  apply slugWords_fixed. split; assumption.
Qed.

(** ** Finding the header line *)

Lemma guessHeader_find lines :
  guessHeader toLowerCase lines
  = List.find (headerLike toLowerCase) (take 25 lines).
Proof. reflexivity. Qed.

Lemma find_first {A} (p : A -> bool) (l : list A) x :
  List.find p l = Some x ->
  exists pre post,
    l = pre ++ x :: post /\ forallb (fun y => negb (p y)) pre = true /\ p x = true.
Proof.
  induction l as [|y l IH]; [discriminate|].
  cbn [List.find]. destruct (p y) eqn:Hy.
  - intros [= ->]. exists [], l. auto.
  - intros H. destruct (IH H) as (pre & post & -> & Hpre & Hx).
    exists (y :: pre), post. cbn. rewrite Hy. auto.
Qed.

Lemma find_nowhere {A} (p : A -> bool) (l : list A) :
  forallb (fun y => negb (p y)) l = true -> List.find p l = None.
Proof.
  induction l as [|y l IH]; [reflexivity|].
  cbn. intros H. apply andb_true_iff in H as [Hy Hl].
  apply negb_true_iff in Hy. rewrite Hy. auto.
Qed.

Lemma indexOf_first (pre post : list jsstring) (x : jsstring) :
  ~ In x pre -> indexOf (pre ++ x :: post) x = Z.of_nat (length pre).
Proof.
  induction pre as [|y pre IH]; intros H.
  - cbn. rewrite decide_True by reflexivity. reflexivity.
  - cbn [app indexOf length].
    rewrite decide_False by (intros ->; apply H; left; reflexivity).
    rewrite IH by (intros Hin; apply H; right; exact Hin).
    assert ((Z.of_nat (length pre) <? 0)%Z = false) as -> by (apply Z.ltb_ge; lia).
    lia.
Qed.

Lemma sliceFrom_after {A} (pre post : list A) (x : A) :
  sliceFrom (Z.of_nat (length pre) + 1) (pre ++ x :: post) = post.
Proof.
  unfold sliceFrom.
  replace (Z.to_nat (Z.of_nat (length pre) + 1)) with (length (pre ++ [x]))
    by (rewrite length_app; cbn; lia).
  rewrite (cons_middle x pre post), app_assoc. apply drop_app_length.
Qed.

(** X7: when a header line is found, it is the first of the first 25
    lines that holds three header words; the lines above it are left
    out, and the rows are the lines below it, whatever the shape. *)
Theorem header_line_splits_lines lines h :
  foundHeader toLowerCase lines = Some h ->
  exists pre post,
    lines = pre ++ h :: post
    /\ (length pre < 25)%nat
    /\ forallb (fun l => negb (headerLike toLowerCase l)) pre = true
    /\ headerLike toLowerCase h = true
    /\ extractTable toLowerCase Tsv lines
       = Return (Some (map trim (splitOn TAB h)), parseDelimited post TAB)
    /\ extractTable toLowerCase Csv lines
       = Return (Some (map trim (splitOn COMMA h)), parseDelimited post COMMA)
    /\ extractTable toLowerCase Spaced lines
       = Return (Some (splitSpacedLine h), map splitSpacedLine post).
Proof.
  intros Hfound. pose proof Hfound as Hguess. unfold foundHeader in Hguess.
  destruct (guessHeader toLowerCase lines) as [h'|] eqn:Hg; [|discriminate].
  destruct (nonEmpty h'); [|discriminate]. injection Hguess as ->.
  rewrite guessHeader_find in Hg.
  destruct (find_first _ _ _ Hg) as (pre & post & Htake & Hpre & Hh).
  exists pre, (post ++ drop 25 lines).
  assert (lines = pre ++ h :: post ++ drop 25 lines) as Hlines.
  { rewrite <- (take_drop 25 lines) at 1. rewrite Htake, <- app_assoc. reflexivity. }
  assert (~ In h pre) as Hnot.
  { intros Hin. rewrite forallb_forall in Hpre. specialize (Hpre h Hin).
    rewrite Hh in Hpre. discriminate. }
  split; [exact Hlines|]. split.
  { assert (length (take 25 lines) <= 25)%nat as Hlen
        by (rewrite length_take; lia).
    rewrite Htake, length_app in Hlen. cbn in Hlen. lia. }
  split; [exact Hpre|]. split; [exact Hh|].
  cbn [extractTable]. rewrite Hfound.
  clear Htake Hg Hfound.
  set (post' := post ++ drop 25 lines) in *. clearbody post'. subst lines.
  rewrite indexOf_first, sliceFrom_after by assumption.
  repeat split; reflexivity.
Qed.

(** X8: only the first 25 lines are searched for a header: when none of
    them holds three header words, no header is found and every line is
    a row, also a header-like line further down. *)
Theorem header_not_searched_below lines :
  forallb (fun l => negb (headerLike toLowerCase l)) (take 25 lines) = true ->
  extractTable toLowerCase Tsv lines = Return (None, parseDelimited lines TAB)
  /\ extractTable toLowerCase Csv lines = Return (None, parseDelimited lines COMMA)
  /\ extractTable toLowerCase Spaced lines = Return (None, map splitSpacedLine lines).
Proof.
  intros H. cbn [extractTable]. unfold foundHeader.
  rewrite guessHeader_find, (find_nowhere _ _ H). repeat split; reflexivity.
Qed.

(** ** The number of records *)

Lemma length_filter_le {A} (p : A -> bool) (l : list A) :
  (length (List.filter p l) <= length l)%nat.
Proof.
  induction l as [|x l IH]; [reflexivity|].
  cbn. destruct (p x); cbn; lia.
Qed.

Lemma extractTable_rows fmt lines t :
  extractTable toLowerCase fmt lines = Return t ->
  (length (snd t) <= length lines)%nat.
Proof.
  assert (forall (i : Z), (length (sliceFrom i lines) <= length lines)%nat) as Hslice.
  { intros i. unfold sliceFrom. rewrite length_drop. lia. }
  destruct fmt; cbn [extractTable].
  - unfold parseMarkdownTable.
    pose proof (length_filter_le (fun l => startsWith (trim l) [PIPE]) lines) as Hle.
    destruct (length (List.filter _ lines) <? 2)%nat; [intros [= <-]; cbn; lia|].
    destruct (element _ 0); [|discriminate]. cbn [bind]. intros [= <-].
    cbn [snd]. rewrite length_map, length_drop. lia.
  - destruct (foundHeader toLowerCase lines); intros [= <-]; cbn [snd];
      unfold parseDelimited; rewrite length_map; [apply Hslice | reflexivity].
  - destruct (foundHeader toLowerCase lines); intros [= <-]; cbn [snd];
      unfold parseDelimited; rewrite length_map; [apply Hslice | reflexivity].
  - destruct (foundHeader toLowerCase lines); intros [= <-]; cbn [snd];
      rewrite length_map; [apply Hslice | reflexivity].
Qed.

(** X9: the conversion never returns more records than the text has
    non-blank lines; a text of blank lines only (the empty text among
    them) gives no record. *)
Theorem record_count_bounded text opts :
  exists rs,
    parseInput toLowerCase stringToNumber numberToString text opts = Return rs
    /\ (length rs <= length (nonBlankLines text))%nat
    /\ (nonBlankLines text = [] -> rs = []).
Proof.
  unfold parseInput.
  destruct (extractTable toLowerCase (detectFormat text) (linesAll text))
    as [t|] eqn:Ht;
    [|destruct (extractTable_total (detectFormat text) (linesAll text)); congruence].
  apply extractTable_rows in Ht. rewrite linesAll_clean, length_map in Ht.
  cbn [bind]. rewrite processRows_kept. cbn [bind app].
  destruct (sortResults_total
              (imap (fun i r =>
                       buildRecord toLowerCase stringToNumber numberToString
                         (resolveHeader (columns opts) (fst t)) opts
                         (length (@nil record) + i) r)
                 (List.filter (fun r => negb (isJunk toLowerCase r)) (snd t))))
    as (out & -> & Hperm).
  exists out. split; [reflexivity|].
  assert (length out <= length (nonBlankLines text))%nat as Hlen.
  { rewrite Hperm, length_imap.
    pose proof (length_filter_le (fun r => negb (isJunk toLowerCase r)) (snd t)).
    lia. }
  split; [exact Hlen|].
  intros Hnone. rewrite Hnone in Hlen. destruct out; [reflexivity | cbn in Hlen; lia].
Qed.

(** X10: a text with exactly one line that starts with a bar is taken
    for a markdown table and gives no record: a table needs two bar
    lines before any row is read. *)
Theorem single_bar_line_gives_nothing text opts l :
  List.filter (fun x => startsWith (trim x) [PIPE]) (nonBlankLines text) = [l] ->
  detectFormat text = Md
  /\ parseInput toLowerCase stringToNumber numberToString text opts = Return [].
Proof.
  intros Hbar.
  assert (detectFormat text = Md) as Hmd.
  { rewrite detectFormat_detectChain. unfold detectChain.
    assert (In l (nonBlankLines text) /\ startsWith (trim l) [PIPE] = true) as [Hin Hl].
    { apply (filter_In (fun x => startsWith (trim x) [PIPE])).
      rewrite Hbar. left. reflexivity. }
    assert (existsb isTableLine (nonBlankLines text) = true) as ->; [|reflexivity].
    apply existsb_exists. exists l. split; [exact Hin|].
    apply bar_line_is_table_line, Hl. }
  split; [exact Hmd|].
  unfold parseInput. rewrite Hmd. cbn [extractTable].
  unfold parseMarkdownTable. rewrite linesAll_clean, filter_map_comm.
  rewrite (filter_ext_bool _ (fun x => startsWith (trim x) [PIPE]))
    by apply startsWith_bar_cleanLine.
  rewrite Hbar. reflexivity.
Qed.

(** ** The fields of a record *)

Lemma assignHeader_other (hs r : list jsstring) (obj : record) (k : jsstring) :
  ~ In k (map (normalizeKey toLowerCase) hs) ->
  assignHeader toLowerCase hs r obj !! k = obj !! k.
Proof.
  revert r obj. induction hs as [|h hs IH]; intros r obj Hk; [reflexivity|].
  cbn [assignHeader]. rewrite IH by (intros H; apply Hk; right; exact H).
  apply setProp_lookup_ne. intros <-. apply Hk. left. reflexivity.
Qed.

Lemma lookup_tail (r : list jsstring) (i : nat) : tail r !! i = r !! S i.
Proof. destruct r; reflexivity. Qed.

Lemma head_lookup (r : list jsstring) : head r = r !! 0%nat.
Proof. destruct r; reflexivity. Qed.

(** X11: with a header whose normalized names differ, each record holds
    under the name of column i the cell i of its row, and the empty
    string when the row is too short; cells beyond the header are
    dropped, no other key is set. *)
Theorem header_cells (hs r : list jsstring) :
  NoDup (map (normalizeKey toLowerCase) hs) ->
  (forall (i : nat) (h : jsstring),
      hs !! i = Some h ->
      normalizeKey toLowerCase h <> js "__proto__" ->
      assignKeys toLowerCase (Some hs) r !! normalizeKey toLowerCase h
      = Some (VStr (default [] (r !! i))))
  /\ (forall k : jsstring,
         ~ In k (map (normalizeKey toLowerCase) hs) ->
         assignKeys toLowerCase (Some hs) r !! k = None).
Proof.
  intros Hdup. split.
  - cbn [assignKeys]. generalize (∅ : record). revert r Hdup.
    induction hs as [|h0 hs IH]; intros r Hdup obj i h Hi Hk; [discriminate|].
    cbn [map] in Hdup. apply NoDup_cons in Hdup as [Hfresh Hdup].
    cbn [assignHeader]. destruct i as [|i].
    + injection Hi as ->.
      rewrite assignHeader_other
        by (intros H; apply Hfresh, list_elem_of_In, H).
      rewrite setProp_lookup_eq by assumption. rewrite head_lookup. reflexivity.
    + rewrite (IH (tail r) Hdup _ i h Hi Hk), lookup_tail. reflexivity.
  - intros k Hk. cbn [assignKeys]. rewrite assignHeader_other by assumption.
    apply lookup_empty.
Qed.

(** *** Positional keys *)

Lemma uintDigits_inj d d' : uintDigits d = uintDigits d' -> d = d'.
Proof.
  revert d'. induction d; intros d' H; destruct d'; cbn in H;
    try discriminate; try reflexivity;
    injection H as H; f_equal; auto.
Qed.

Lemma colKey_inj i j : colKey i = colKey j -> i = j.
Proof.
  unfold colKey, natDigits. intros H. apply app_inv_head in H.
  apply uintDigits_inj, DecimalN.Unsigned.to_uint_inj in H. lia.
Qed.

Lemma colKey_own i : colKey i <> js "__proto__".
Proof. unfold colKey. cbn. discriminate. Qed.

Lemma assignColumns_lookup (i : nat) (r : list jsstring) (obj : record) (j : nat) :
  assignColumns i r obj !! colKey j
  = if decide (i <= j < i + length r)%nat then VStr <$> r !! (j - i)%nat
    else obj !! colKey j.
Proof.
  revert i obj. induction r as [|c r IH]; intros i obj.
  - cbn. rewrite decide_False by lia. reflexivity.
  - cbn [assignColumns length]. rewrite IH.
    change (js "col" ++ natDigits (N.of_nat (i + 1))) with (colKey i).
    destruct (decide (i = j)) as [->|Hij].
    + rewrite decide_False by lia. rewrite decide_True by lia.
      rewrite setProp_lookup_eq by apply colKey_own.
      rewrite Nat.sub_diag. reflexivity.
    + rewrite setProp_lookup_ne by (intros H; apply Hij, colKey_inj, H).
      destruct (decide (S i <= j < S i + length r)%nat) as [Hin|Hout].
      * rewrite decide_True by lia.
        replace (j - i)%nat with (S (j - S i)) by lia. reflexivity.
      * rewrite decide_False by lia. reflexivity.
Qed.

Lemma assignColumns_other (i : nat) (r : list jsstring) (obj : record) (k : jsstring) :
  ~ In k (map colKey (seq i (length r))) ->
  assignColumns i r obj !! k = obj !! k.
Proof.
  revert i obj. induction r as [|c r IH]; intros i obj Hk; [reflexivity|].
  cbn [assignColumns length seq map] in *.
  rewrite IH by (intros H; apply Hk; right; exact H).
  apply setProp_lookup_ne. intros <-. apply Hk. left. reflexivity.
Qed.

Lemma assignColumns_is_Some (r : list jsstring) (k : jsstring) :
  is_Some (assignColumns 0 r ∅ !! k)
  <-> exists j, (j < length r)%nat /\ k = colKey j.
Proof.
  split.
  - intros Hk.
    destruct (decide (k ∈ map colKey (seq 0 (length r)))) as [Hin|Hout].
    + apply list_elem_of_In, in_map_iff in Hin as (j & <- & Hj).
      apply in_seq in Hj. exists j. split; [lia | reflexivity].
    + rewrite assignColumns_other, lookup_empty in Hk
        by (intros H; apply Hout, list_elem_of_In, H).
      destruct Hk; discriminate.
  - intros (j & Hj & ->). rewrite assignColumns_lookup.
    rewrite decide_True by lia. rewrite Nat.sub_0_r.
    destruct (lookup_lt_is_Some_2 r j Hj) as [c ->]. eexists. reflexivity.
Qed.

(** X12: without a header, the cell of index i of a row is stored under
    the key col followed by i+1, and these are the only keys: col1 to
    colN for a row of N cells. *)
Theorem positional_cells (r : list jsstring) :
  (forall j : nat, assignKeys toLowerCase None r !! colKey j = VStr <$> r !! j)
  /\ (forall k : jsstring,
         is_Some (assignKeys toLowerCase None r !! k)
         <-> exists j, (j < length r)%nat /\ k = colKey j).
Proof.
  split.
  - intros j. cbn [assignKeys]. rewrite assignColumns_lookup, lookup_empty.
    rewrite Nat.sub_0_r. destruct (decide _) as [|Hout]; [reflexivity|].
    rewrite lookup_ge_None_2 by lia. reflexivity.
  - intros k. cbn [assignKeys]. apply assignColumns_is_Some.
Qed.

(** *** The keys of a finished record *)

Lemma assignHeader_is_Some (hs r : list jsstring) (obj : record) (k : jsstring) :
  is_Some (assignHeader toLowerCase hs r obj !! k)
  <-> (In k (map (normalizeKey toLowerCase) hs) /\ k <> js "__proto__")
      \/ is_Some (obj !! k).
Proof.
  revert r obj. induction hs as [|h hs IH]; intros r obj.
  - cbn [assignHeader map].
    split; [intros H; right; exact H | intros [[[] _]|H]; exact H].
  - cbn [assignHeader map]. rewrite IH. unfold setProp.
    destruct (decide (normalizeKey toLowerCase h = js "__proto__")) as [Hp|Hp].
    + split; [intros [[H1 H2]|H]; [left; split; [right|]; assumption | right; exact H]|].
      intros [[[H1|H1] H2]|H]; [congruence | left; auto | right; exact H].
    + destruct (decide (normalizeKey toLowerCase h = k)) as [<-|Hk].
      * rewrite lookup_insert_eq. split; [intros _; left; split; [left; reflexivity | exact Hp]|].
        intros _. right. eexists. reflexivity.
      * rewrite lookup_insert_ne by assumption.
        split; [intros [[H1 H2]|H]; [left; split; [right|]; assumption | right; exact H]|].
        intros [[[H1|H1] H2]|H]; [congruence | left; auto | right; exact H].
Qed.

Lemma assignKeys_is_Some fh (r : list jsstring) (k : jsstring) :
  is_Some (assignKeys toLowerCase fh r !! k)
  <-> In k (fieldKeys toLowerCase fh r) /\ k <> js "__proto__".
Proof.
  destruct fh as [hs|]; cbn [assignKeys fieldKeys].
  - rewrite assignHeader_is_Some, lookup_empty.
    split; [intros [H|[x Hx]]; [exact H | discriminate] | intros H; left; exact H].
  - rewrite assignColumns_is_Some. split.
    + intros (j & Hj & ->). split; [|apply colKey_own].
      apply in_map_iff. exists j. split; [reflexivity|]. apply in_seq. lia.
    + intros [Hin _]. apply in_map_iff in Hin as (j & <- & Hj).
      apply in_seq in Hj. exists j. split; [lia | reflexivity].
Qed.

Lemma coerceFields_is_Some (obj : record) (k : jsstring) :
  is_Some (coerceFields stringToNumber numberToString obj !! k) <-> is_Some (obj !! k).
Proof.
  destruct (decide (k = js "rank")) as [->|H1].
  { rewrite coerceFields_rank. apply fmap_is_Some. }
  destruct (decide (k = js "rating")) as [->|H2].
  { rewrite coerceFields_rating. apply fmap_is_Some. }
  rewrite coerceFields_other by assumption. reflexivity.
Qed.

(** X13: the keys of a finished record are the keys of its cells, the
    key id when identifiers are made, and the keys of the metadata,
    [__proto__] left out; with a header every record of a run has the
    same keys, whatever its row. *)
Theorem record_keys opts :
  (forall fh produced r (k : jsstring),
      is_Some (buildRecord toLowerCase stringToNumber numberToString fh opts produced r !! k)
      <-> k <> js "__proto__"
          /\ (In k (fieldKeys toLowerCase fh r)
              \/ (addId opts = true /\ k = js "id")
              \/ is_Some (meta opts !! k)))
  /\ (forall hs produced produced' r r',
         dom (buildRecord toLowerCase stringToNumber numberToString (Some hs) opts produced r)
         =@{gset jsstring}
         dom (buildRecord toLowerCase stringToNumber numberToString (Some hs) opts produced' r')).
Proof.
  assert (forall fh produced r (k : jsstring),
             is_Some (buildRecord toLowerCase stringToNumber numberToString fh opts produced r !! k)
             <-> k <> js "__proto__"
                 /\ (In k (fieldKeys toLowerCase fh r)
                     \/ (addId opts = true /\ k = js "id")
                     \/ is_Some (meta opts !! k))) as Hkeys.
  { intros fh produced r k. unfold buildRecord. rewrite attachMeta_lookup.
    assert (is_Some ((if addId opts
                      then attachId toLowerCase numberToString produced
                             (coerceFields stringToNumber numberToString (assignKeys toLowerCase fh r))
                      else coerceFields stringToNumber numberToString (assignKeys toLowerCase fh r)) !! k)
            <-> (In k (fieldKeys toLowerCase fh r) /\ k <> js "__proto__")
                \/ (addId opts = true /\ k = js "id")) as Hobj.
    { destruct (addId opts).
      - unfold attachId. destruct (decide (k = js "id")) as [->|Hid].
        + rewrite setProp_lookup_eq by discriminate.
          split; [intros _; right; auto | intros _; eexists; reflexivity].
        + rewrite setProp_lookup_ne by congruence.
          rewrite coerceFields_is_Some, assignKeys_is_Some.
          split; [intros H; left; exact H | intros [H|[_ H]]; [exact H | congruence]].
      - rewrite coerceFields_is_Some, assignKeys_is_Some.
        split; [intros H; left; exact H | intros [H|[H _]]; [exact H | discriminate]]. }
    destruct (decide (k = js "__proto__")) as [Hp|Hp].
    - rewrite Hobj. subst k.
      split; [intros [[_ H]|[_ H]]; [contradiction | discriminate] | intros [H _]; contradiction].
    - destruct (meta opts !! k) as [v|] eqn:Hv.
      + split; [intros _; split; [exact Hp | right; right; eexists; reflexivity]
               | intros _; eexists; reflexivity].
      + rewrite Hobj. split.
        * intros [[H _]|H]; (split; [exact Hp|]); [left; exact H | right; left; exact H].
        * intros [_ [H|[H|[x Hx]]]]; [left; auto | right; exact H | discriminate]. }
  split; [exact Hkeys|].
  intros hs produced produced' r r'. apply set_eq. intros k.
  rewrite !elem_of_dom, !Hkeys. reflexivity.
Qed.

(** *** The values of a finished record *)

(** X14: the identifier made for a record is a slug: only a-z, 0-9 and
    single hyphens, none of them first or last. *)
Theorem synthesized_id_is_slug fh opts produced r :
  addId opts = true ->
  meta opts !! js "id" = None ->
  exists s,
    buildRecord toLowerCase stringToNumber numberToString fh opts produced r !! js "id" = Some (VStr s)
    /\ slugShape s.
Proof.
  intros Hid Hmeta. unfold buildRecord. rewrite Hid.
  rewrite attachMeta_lookup, Hmeta. rewrite decide_False by discriminate.
  unfold attachId. rewrite setProp_lookup_eq by discriminate.
  eexists. split; [reflexivity|].
  unfold slugify. rewrite slugify_trims_nothing_more. apply slugWords_shape.
Qed.

Lemma coerced_field_type fh opts produced r (k : jsstring) :
  meta opts !! k = None ->
  k <> js "id" ->
  match buildRecord toLowerCase stringToNumber numberToString fh opts produced r !! k with
  | None => True
  | Some v => fieldType k v
  end.
Proof.
  intros Hmeta Hid. unfold buildRecord, fieldType.
  rewrite attachMeta_lookup, Hmeta.
  assert ((if decide (k = js "__proto__")
           then (if addId opts
                 then attachId toLowerCase numberToString produced
                        (coerceFields stringToNumber numberToString (assignKeys toLowerCase fh r))
                 else coerceFields stringToNumber numberToString (assignKeys toLowerCase fh r)) !! k
           else (if addId opts
                 then attachId toLowerCase numberToString produced
                        (coerceFields stringToNumber numberToString (assignKeys toLowerCase fh r))
                 else coerceFields stringToNumber numberToString (assignKeys toLowerCase fh r)) !! k)
          = coerceFields stringToNumber numberToString (assignKeys toLowerCase fh r) !! k) as ->.
  { destruct (decide (k = js "__proto__")); destruct (addId opts);
      try reflexivity; unfold attachId; apply setProp_lookup_ne; congruence. }
  destruct (decide (k = js "rank")) as [->|Hrank].
  { rewrite coerceFields_rank.
    destruct (assignKeys toLowerCase fh r !! js "rank") as [v|]; [|exact I].
    cbn [fmap option_fmap option_map].
    pose proof (coerceRank_digitRank v) as Hv.
    destruct (coerceRank stringToNumber numberToString v) as [|[m [|e]| | |]|];
      try exact I; try contradiction. lia. }
  destruct (decide (k = js "rating")) as [->|Hrating].
  { rewrite coerceFields_rating.
    destruct (assignKeys toLowerCase fh r !! js "rating") as [v|]; [|exact I].
    cbn [fmap option_fmap option_map]. unfold coerceNumber.
    destruct v; try exact I; destruct (search matchNumberAt _); exact I. }
  pose proof (coerced_source_fields fh r k Hrank Hrating) as H.
  destruct (coerceFields stringToNumber numberToString (assignKeys toLowerCase fh r) !! k); exact H.
Qed.

(** X15: in a finished record, a key that the metadata does not set
    holds: under rank, null, a whole number that is not negative (a
    minus sign in the text is not read), or Infinity when the run of
    digits is too long for a finite number; under rating, null or a
    number; under any other key but id, a string. *)
Theorem field_types fh opts produced r (k : jsstring) (v : value) :
  meta opts !! k = None ->
  k <> js "id" ->
  buildRecord toLowerCase stringToNumber numberToString fh opts produced r !! k = Some v ->
  fieldType k v.
Proof.
  intros Hmeta Hid Hv.
  pose proof (coerced_field_type fh opts produced r k Hmeta Hid) as H.
  rewrite Hv in H. exact H.
Qed.

(** ** The whole conversion *)

(** X16: the records returned are the records of the rows that the junk
    filter keeps, each once: the final sort neither drops nor repeats a
    record. *)
Theorem records_are_kept_rows text opts :
  exists header rows rs,
    extractTable toLowerCase (detectFormat text) (linesAll text)
    = Return (header, rows)
    /\ parseInput toLowerCase stringToNumber numberToString text opts = Return rs
    /\ rs ≡ₚ imap (buildRecord toLowerCase stringToNumber numberToString
                     (resolveHeader (columns opts) header) opts)
           (List.filter (fun r => negb (isJunk toLowerCase r)) rows).
Proof.
  unfold parseInput.
  destruct (extractTable_total (detectFormat text) (linesAll text))
    as [[header rows] Ht].
  exists header, rows. rewrite Ht. cbn [bind fst snd].
  rewrite processRows_kept. cbn [bind app length Nat.add].
  destruct (sortResults_total
              (imap (fun i r =>
                       buildRecord toLowerCase stringToNumber numberToString
                         (resolveHeader (columns opts) header) opts i r)
                 (List.filter (fun r => negb (isJunk toLowerCase r)) rows)))
    as (out & -> & Hperm).
  exists out. auto.
Qed.

Lemma sortBy_sorted_fixed {A} (cmp : A -> A -> comparison) (key : A -> Z)
    (Q : A -> Prop) (l : list A) :
  (forall a b, Q a -> Q b -> cmp a b = (key a ?= key b)%Z) ->
  Forall Q l -> StronglySorted (keyLe key) l -> sortBy cmp l = l.
Proof.
  intros Hcmp HQ Hs. induction Hs as [|x l Hs IH Hx]; [reflexivity|].
  apply Forall_cons_1 in HQ as [Hqx Hql].
  rewrite sortBy_cons, (IH Hql).
  destruct l as [|y l]; [reflexivity|]. cbn [insertBy].
  apply Forall_cons_1 in Hx as [Hxy _]. apply Forall_cons_1 in Hql as [Hqy _].
  rewrite Hcmp by assumption. unfold keyLe in Hxy.
  destruct (key x ?= key y)%Z eqn:Hc; try reflexivity.
  rewrite Z.compare_gt_iff in Hc. lia.
Qed.

(** X17: sorting what the sort returned changes nothing: the final step
    is idempotent on records whose rank is null or a whole number. *)
Theorem sort_is_idempotent (rs out : list record) :
  Forall wholeRank rs ->
  sortResults stringToNumber rs = Return out ->
  sortResults stringToNumber out = Return out.
Proof.
  intros Hrs Hout.
  destruct (sortResults_wholeRank rs Hrs) as (out' & Hout' & Hsorted).
  rewrite Hout in Hout'. injection Hout' as <-.
  unfold sortedByRank in Hsorted. destruct rs as [|first rest].
  - subst out. reflexivity.
  - destruct (nullish (first !! js "rank")); [subst out; exact Hout|].
    destruct Hsorted as (Hperm & Hs & _).
    assert (Forall wholeRank out) as Hq by (rewrite Hperm; exact Hrs).
    destruct out as [|o out]; [reflexivity|].
    unfold sortResults. cbn [length Nat.ltb Nat.leb element lookup list_lookup bind].
    destruct (nullish (o !! js "rank")); [reflexivity|].
    rewrite (sortBy_sorted_fixed _ rankKey wholeRank); auto.
    apply compareRank_key.
Qed.

(** ** The command line *)

Lemma indexOf_absent (l : list jsstring) (x : jsstring) :
  ~ In x l -> indexOf l x = (-1)%Z.
Proof.
  induction l as [|y l IH]; [reflexivity|]. intros H.
  cbn [indexOf]. rewrite decide_False by (intros ->; apply H; left; reflexivity).
  rewrite IH by (intros Hin; apply H; right; exact Hin). reflexivity.
Qed.

(** X18: [getArg] gives the argument that follows the first occurrence
    of the flag, whatever comes later; nothing when the flag is the last
    argument, and nothing when the flag is not there. *)
Theorem getArg_first_occurrence (pre post : list jsstring) (flag v : jsstring) :
  ~ In flag pre ->
  getArg (pre ++ flag :: v :: post) flag = Some v
  /\ getArg (pre ++ [flag]) flag = None
  /\ getArg pre flag = None.
Proof.
  intros Hpre. unfold getArg. rewrite !indexOf_first by assumption.
  rewrite indexOf_absent by assumption.
  assert ((Z.of_nat (length pre) =? -1)%Z = false) as -> by (apply Z.eqb_neq; lia).
  replace (Z.to_nat (Z.of_nat (length pre) + 1)) with (S (length pre)) by lia.
  split; [|split; [|reflexivity]].
  - rewrite lookup_app_r by lia.
    replace (S (length pre) - length pre)%nat with 1%nat by lia. reflexivity.
  - apply lookup_ge_None_2. rewrite length_app. cbn. lia.
Qed.

Lemma charIndex_range c s : (-1 <= charIndex c s < Z.of_nat (length s))%Z
                            \/ (s = [] /\ charIndex c s = (-1)%Z).
Proof.
  induction s as [|d s IH]; [right; auto|]. left.
  cbn [charIndex length]. destruct (d =? c); [lia|].
  destruct (charIndex c s <? 0)%Z eqn:Hi; [lia|].
  apply Z.ltb_ge in Hi. destruct IH as [IH|[-> IH]]; [lia|]. cbn in Hi. lia.
Qed.


Lemma charIndex_first c (k v : jsstring) :
  ~ In c k -> charIndex c (k ++ c :: v) = Z.of_nat (length k).
Proof.
  induction k as [|d k IH]; intros H.
  - cbn. rewrite N.eqb_refl. reflexivity.
  - cbn [app charIndex length].
    destruct (N.eqb_spec d c) as [->|Hd]; [contradiction H; left; reflexivity|].
    rewrite IH by (intros Hin; apply H; right; exact Hin).
    assert ((Z.of_nat (length k) <? 0)%Z = false) as -> by (apply Z.ltb_ge; lia).
    lia.
Qed.


Lemma addMetaPair_clean (k v : jsstring) (meta : gmap jsstring jsstring) :
  cleanPair k v ->
  addMetaPair (k ++ EQUALS :: v) meta = <[k := v]> meta.
Proof.
  intros (Hne & Hk & Heq & Hp & Hv). unfold addMetaPair.
  rewrite charIndex_first by assumption.
  assert ((0 <? Z.of_nat (length k))%Z = true) as ->.
  { apply Z.ltb_lt. destruct k; [congruence | cbn; lia]. }
  rewrite Nat2Z.id.
  replace (Z.to_nat (Z.of_nat (length k) + 1)) with (length k + 1)%nat by lia.
  rewrite take_app_length.
  assert (drop (length k + 1) (k ++ EQUALS :: v) = v) as ->.
  { rewrite <- drop_drop, drop_app_length. reflexivity. }
  rewrite Hk, Hv.
  assert (nonEmpty k = true) as -> by (destruct k; [congruence | reflexivity]).
  rewrite decide_False by assumption. reflexivity.
Qed.


Lemma metaArgsFrom_last (argv : list jsstring) (pair : jsstring)
    (meta : gmap jsstring jsstring) :
  pair <> js "--meta" ->
  exists meta', metaArgsFrom (argv ++ [js "--meta"; pair]) meta
                = addMetaPair pair meta'.
Proof.
  intros Hpair. revert meta. induction argv as [|a rest IH]; intros meta.
  - exists meta. cbn [app metaArgsFrom head default].
    destruct (decide (pair = js "--meta")) as [|_]; [contradiction|].
    destruct (decide (js "--meta" = js "--meta")) as [_|]; [|contradiction].
    reflexivity.
  - cbn [app metaArgsFrom]. apply IH.
Qed.


(** X20: a clean pair written key=value after a final --meta is read
    back: the key gets that value, whatever came before (the last pair
    of a key wins), and the value may itself hold equals signs. *)
Theorem last_meta_pair_wins (argv : list jsstring) (k v : jsstring) :
  cleanPair k v ->
  getMetaArgs (argv ++ [js "--meta"; k ++ EQUALS :: v]) !! k = Some v.
Proof.
  intros Hc. unfold getMetaArgs.
  destruct (metaArgsFrom_last argv (k ++ EQUALS :: v) ∅) as [meta' ->].
  - intros H. destruct Hc as (_ & _ & Heq & _).
    assert (In EQUALS (k ++ EQUALS :: v)) as Hin
        by (apply in_or_app; right; left; reflexivity).
    rewrite H in Hin. cbn in Hin. unfold EQUALS in Hin.
    repeat (destruct Hin as [Hin|Hin]; [discriminate|]). exact Hin.
  - rewrite addMetaPair_clean by assumption. apply lookup_insert_eq.
Qed.

(** ** The cells of a markdown table *)

Lemma pipeCells_clean (l : jsstring) :
  Forall (fun x => x <> [] /\ trim x = x /\ ~ In PIPE x) (pipeCells l).
Proof.
  unfold pipeCells. apply Forall_forall. intros x Hx.
  apply list_elem_of_In, filter_In in Hx as [Hx Hne].
  apply in_map_iff in Hx as (p & <- & Hp).
  split; [intros H; rewrite H in Hne; discriminate|].
  split; [apply trim_idempotent|].
  intros H. apply trim_In in H. revert H.
  pose proof (splitOn_pieces PIPE l) as Hall.
  rewrite Forall_forall in Hall. apply Hall, list_elem_of_In, Hp.
Qed.

(** X21: the cells of a line of a markdown table are the trimmed texts
    between the bars with the empty ones left out, so an empty cell does
    not keep its place and the cells after it move one column to the
    left; every cell of the header and of the rows is trimmed, not empty
    and free of bars. *)
Theorem markdown_cells_skip_empty :
  (forall (c : jsstring) (cs : list jsstring),
      Forall (fun x => ~ In PIPE x) (c :: cs) ->
      pipeCells (join [PIPE] (c :: cs))
      = List.filter nonEmpty (map trim (c :: cs)))
  /\ (forall lines header rows,
         parseMarkdownTable lines = Return (header, rows) ->
         Forall (Forall (fun x => x <> [] /\ trim x = x /\ ~ In PIPE x))
           (default [] header :: rows)).
Proof.
  split.
  - intros c cs H. unfold pipeCells. rewrite splitOn_join by exact H.
    reflexivity.
  - intros lines header rows. unfold parseMarkdownTable.
    destruct (length _ <? 2)%nat.
    + intros [= <- <-]. repeat constructor.
    + destruct (element _ 0) as [first|]; [|discriminate].
      cbn [bind]. intros [= <- <-]. constructor; [apply pipeCells_clean|].
      apply Forall_forall. intros row Hrow.
      apply list_elem_of_In, in_map_iff in Hrow as (l & <- & _).
      apply pipeCells_clean.
Qed.

End Properties.

(** * Instances on sample inputs *)

Lemma lowerAscii_on_ascii :
  forall s, forallb isAscii s = true -> lowerAscii s = lowerAscii s.
Proof. intros s _. reflexivity. Qed.

(** The stand-ins for the conversions between strings and numbers have the
    three properties assumed of the runtime. *)
Lemma overflow_exactDouble x : exactDouble x = true -> overflow x = x.
Proof.
  destruct x as [m e| | |]; try discriminate. unfold exactDouble, overflow.
  intros H. apply andb_true_iff in H as [H _].
  apply andb_true_iff in H as [Hmod Hk].
  apply Z.eqb_eq in Hmod. apply Z.leb_le in Hk.
  assert (0 < 5 ^ Z.of_nat e)%Z as Hp by (apply Z.pow_pos_nonneg; lia).
  assert (0 < 2 ^ Z.of_nat e)%Z as Ht by (apply Z.pow_pos_nonneg; lia).
  assert (10 ^ Z.of_nat e = 2 ^ Z.of_nat e * 5 ^ Z.of_nat e)%Z as ->
      by (rewrite <- Z.pow_mul_l; reflexivity).
  assert (m = 5 ^ Z.of_nat e * (m / 5 ^ Z.of_nat e))%Z as Hm
      by (apply Z_div_exact_full_2; [lia | exact Hmod]).
  assert (2 ^ 53 < OVERFLOW)%Z as Hbig by reflexivity.
  set (k := (m / 5 ^ Z.of_nat e)%Z) in *.
  set (P := (5 ^ Z.of_nat e)%Z) in *. set (T := (2 ^ Z.of_nat e)%Z) in *.
  assert (Z.abs k < OVERFLOW * T)%Z as Hlt by nia.
  assert ((OVERFLOW * (T * P) <=? m)%Z = false) as ->.
  { apply Z.leb_gt. rewrite Hm. nia. }
  assert ((m <=? - (OVERFLOW * (T * P)))%Z = false) as ->.
  { apply Z.leb_gt. rewrite Hm. nia. }
  reflexivity.
Qed.

Lemma plainNumber_exact :
  forall tok,
    matchNumberAt tok = Some tok ->
    exactDouble (decimalValue tok) = true ->
    plainNumber tok = decimalValue tok.
Proof.
  intros tok Hm Hd. unfold plainNumber. rewrite Hm.
  destruct (decide (tok = tok)) as [_|]; [|contradiction].
  apply overflow_exactDouble, Hd.
Qed.

Lemma plainNumber_digits :
  forall ds,
    ds <> [] -> forallb isDigit ds = true ->
    plainNumber ds = PosInf
    \/ exists n, (0 <= n < OVERFLOW)%Z /\ plainNumber ds = Fin n 0.
Proof.
  intros ds Hne Hds. unfold plainNumber.
  rewrite digits_matched by assumption.
  destruct (decide (ds = ds)) as [_|]; [|contradiction].
  rewrite digits_decimalValue by assumption. unfold overflow.
  change (10 ^ Z.of_nat 0)%Z with 1%Z. rewrite Z.mul_1_r.
  destruct (Z.leb_spec OVERFLOW (Z.of_N (digitsValue ds))) as [Hbig|Hsmall];
    [left; reflexivity|].
  right. exists (Z.of_N (digitsValue ds)).
  assert (0 < OVERFLOW)%Z by reflexivity.
  assert ((Z.of_N (digitsValue ds) <=? - OVERFLOW)%Z = false) as ->
      by (apply Z.leb_gt; lia).
  split; [lia | reflexivity].
Qed.

Lemma plainDigits_whole :
  forall n, (0 <= n <= 2 ^ 53)%Z -> plainDigits (Fin n 0) = natDigits (Z.to_N n).
Proof.
  intros n Hn. unfold plainDigits.
  assert ((n <? 0)%Z = false) as -> by (apply Z.ltb_ge; lia).
  rewrite Zabs2N.abs_N_nonneg by lia. cbn [N.of_nat].
  rewrite N.pow_0_r, N.div_1_r, N.mod_1_r. cbn. apply app_nil_r.
Qed.

(** The slug of a name with a straight apostrophe. *)
Lemma slugify_steps_witness :
  slugify lowerAscii (js "O'Brien") = js "obrien".
Proof.
  exact (proj1 (proj2 (proj2 (slugify_steps lowerAscii (fun s _ => eq_refl))))).
Defined.

(** C3 as stated fails: a curly apostrophe is not removed, it is replaced by
    a hyphen like any other character outside a-z0-9. *)
Lemma curly_quote_becomes_hyphen :
  slugify lowerAscii curlyName = js "o-brien"
  /\ slugWordsCurly (lowerAscii curlyName) = js "obrien"
  /\ slugify lowerAscii curlyName <> slugWordsCurly (lowerAscii curlyName).
Proof. split; [|split]; [reflexivity | reflexivity | discriminate]. Qed.

Lemma normalizeKey_idempotent_witness :
  normalizeKey lowerAscii (normalizeKey lowerAscii (js " Full Name "))
  = normalizeKey lowerAscii (js " Full Name ").
Proof.
  apply (normalizeKey_idempotent lowerAscii). intros s _. reflexivity.
Defined.

(** C5 as stated fails: a tab on a blank line is in the input, and the text
    is classified as comma-separated all the same. *)
Lemma tab_on_blank_line_ignored :
  detectFormat commaThenBlankTab = Csv
  /\ includes commaThenBlankTab [TAB] = true
  /\ detectChainGlobalTab commaThenBlankTab = Spaced
  /\ detectFormat commaThenBlankTab <> detectChainGlobalTab commaThenBlankTab.
Proof. repeat split; try reflexivity. discriminate. Qed.

Lemma coercion_of_rank_and_rating_witness :
  buildRecord lowerAscii plainNumber plainDigits (Some [js "Rank"; js "Rating"])
    defaultOptions 0 [js "#12"; js "8.5 of 10"] !! js "rank"
  = Some (VNum (Fin 12 0))
  /\ buildRecord lowerAscii plainNumber plainDigits (Some [js "Rank"; js "Rating"])
       defaultOptions 0 [js "#12"; js "8.5 of 10"] !! js "rating"
     = Some (VNum (Fin 85 1)).
Proof.
  pose proof (coercion_of_rank_and_rating lowerAscii plainNumber plainDigits
                plainNumber_exact (Some [js "Rank"; js "Rating"])
                defaultOptions 0 [js "#12"; js "8.5 of 10"]) as (Hrank & Hrating & _).
  split.
  - exact (Hrank (js "#12") eq_refl eq_refl).
  - exact (Hrating (js "8.5 of 10") eq_refl eq_refl).
Defined.

Lemma identifier_synthesis_witness :
  buildRecord lowerAscii plainNumber plainDigits (Some [js "Rank"; js "Player"])
    defaultOptions 0 [js "3"; js "O'Brien"] !! js "id"
  = Some (VStr (js "obrien-3")).
Proof.
  assert (Z.of_nat (0 + 1) <= 2 ^ 53)%Z as Hsmall by (vm_compute; discriminate).
  exact (proj1 (proj2 (identifier_synthesis lowerAscii plainNumber plainDigits
                         plainNumber_exact plainDigits_whole
                         (Some [js "Rank"; js "Player"])
                         defaultOptions 0 [js "3"; js "O'Brien"] Hsmall))
           eq_refl eq_refl).
Defined.

Lemma sort_by_rank_witness :
  exists produced out,
    processRows lowerAscii plainNumber plainDigits (Some [js "Rank"; js "Player"])
      defaultOptions [[js "3"; js "Al"]; [js "1"; js "Bo"]] [] = Return produced
    /\ sortResults plainNumber produced = Return out
    /\ sortedByRank produced out.
Proof.
  exact (proj1 (sort_by_rank lowerAscii plainNumber plainDigits plainNumber_digits
                  (Some [js "Rank"; js "Player"]) defaultOptions
                  [[js "3"; js "Al"]; [js "1"; js "Bo"]])).
Defined.

(** C1 as stated fails: with a first rank above the sentinel, the record
    without rank is sorted in front of the ranked one. *)
Lemma rankless_before_million :
  sortResults plainNumber [ranked 1000000; rankless]
  = Return [rankless; ranked 1000000]
  /\ ~ ranklessLast [rankless; ranked 1000000]
  /\ exists out,
       parseInput lowerAscii plainNumber plainDigits millionText defaultOptions = Return out
       /\ map (fun r : record => r !! js "rank") out
          = [Some VNull; Some (VNum (Fin 1000000 0))]
       /\ ~ ranklessLast out.
Proof.
  assert (forall out : list record,
             map (fun r : record => r !! js "rank") out
             = [Some VNull; Some (VNum (Fin 1000000 0))] ->
             ~ ranklessLast out) as Hnot.
  { intros out Hranks H. unfold ranklessLast in H. rewrite Hranks in H.
    specialize (H 0%nat 1%nat _ _ eq_refl eq_refl eq_refl eq_refl). lia. }
  split; [reflexivity|]. split; [apply Hnot; reflexivity|].
  assert (ranksOf (parseInput lowerAscii plainNumber plainDigits millionText defaultOptions)
          = [Some VNull; Some (VNum (Fin 1000000 0))]) as Hranks
      by (vm_compute; reflexivity).
  destruct (parseInput lowerAscii plainNumber plainDigits millionText defaultOptions)
    as [out|]; [|discriminate].
  exists out. split; [reflexivity|]. split; [exact Hranks | exact (Hnot out Hranks)].
Qed.

Lemma markdown_table_records_witness :
  markdownTable rankedTable (js "| Rank | Player |") (js "| --- | --- |")
    [js "| 3 | Al |"; js "| 1 | Bo |"]
  /\ exists rs,
       parseInput lowerAscii plainNumber plainDigits rankedTable defaultOptions = Return rs
       /\ length rs = 2%nat.
Proof.
  assert (markdownTable rankedTable (js "| Rank | Player |") (js "| --- | --- |")
            [js "| 3 | Al |"; js "| 1 | Bo |"]) as H.
  { split; [reflexivity|]. repeat constructor. }
  split; [exact H|].
  destruct (markdown_table_records lowerAscii plainNumber plainDigits _ defaultOptions _ _ _ H)
    as (rs & Hrs & _ & _ & Hn).
  exists rs. split; [exact Hrs|]. apply Hn. reflexivity.
Defined.

(** C2 as stated fails: a table of one column with one-character cells has
    two data rows and gives no record, both rows being dropped as junk. *)
Lemma single_column_table_is_empty :
  markdownTable singleColumnTable (js "| Rank |") (js "| --- |")
    [js "| 1 |"; js "| 2 |"]
  /\ parseInput lowerAscii plainNumber plainDigits singleColumnTable defaultOptions = Return [].
Proof.
  split; [|reflexivity]. split; [reflexivity|]. repeat constructor.
Qed.

Lemma metadata_overrides_id_witness :
  meta idMetaOptions !! js "id" = Some (js "x1")
  /\ exists rs,
       parseInput lowerAscii plainNumber plainDigits rankedTable idMetaOptions = Return rs
       /\ Forall (fun rec : record => rec !! js "id" = Some (VStr (js "x1"))) rs.
Proof.
  split; [reflexivity|].
  exact (proj2 (proj2 (metadata_overrides_id lowerAscii plainNumber plainDigits rankedTable
                         idMetaOptions (js "x1") eq_refl))).
Defined.

(** * Instances of the further properties *)

Lemma lines_read_back_witness :
  splitLines (join [LF] [js "1,Al"; js "2,Bo"]) = [js "1,Al"; js "2,Bo"]
  /\ splitLines (join [CR; LF] [js "1,Al"; js "2,Bo"]) = [js "1,Al"; js "2,Bo"].
Proof.
  apply (lines_read_back (js "1,Al") [js "2,Bo"]).
  repeat (constructor; [reflexivity|]). constructor.
Defined.


Lemma columns_argument_witness :
  columnsOf (Some (join [COMMA] [js "rank"; js "name"]))
  = Some [js "rank"; js "name"].
Proof.
  apply (proj2 columns_argument (js "rank") [js "name"]).
  repeat (constructor;
          [split; [discriminate | split; [reflexivity|]];
           intros H; cbn in H; unfold COMMA in H;
           repeat (destruct H as [H|H]; [discriminate H|]); exact H|]).
  constructor.
Defined.

Lemma slugify_idempotent_witness :
  slugify lowerAscii (slugify lowerAscii (js "O'Brien, Al"))
  = slugify lowerAscii (js "O'Brien, Al").
Proof.
  apply (slugify_idempotent lowerAscii). intros s _. reflexivity.
Defined.

Lemma header_line_splits_lines_witness :
  exists pre post,
    titledLines = pre ++ js "Rank,Player,City" :: post
    /\ extractTable lowerAscii Csv titledLines
       = Return (Some (map trim (splitOn COMMA (js "Rank,Player,City"))),
                 parseDelimited post COMMA).
Proof.
  destruct (header_line_splits_lines lowerAscii titledLines
              (js "Rank,Player,City") eq_refl)
    as (pre & post & Hlines & _ & _ & _ & _ & Hcsv & _).
  exists pre, post. split; assumption.
Defined.

Lemma header_not_searched_below_witness :
  extractTable lowerAscii Csv [js "1,Al"; js "2,Bo"]
  = Return (None, parseDelimited [js "1,Al"; js "2,Bo"] COMMA).
Proof.
  exact (proj1 (proj2 (header_not_searched_below lowerAscii
                         [js "1,Al"; js "2,Bo"] eq_refl))).
Defined.

Lemma single_bar_line_gives_nothing_witness :
  detectFormat (js "| Rank | Player |") = Md
  /\ parseInput lowerAscii plainNumber plainDigits (js "| Rank | Player |") defaultOptions
     = Return [].
Proof.
  apply (single_bar_line_gives_nothing lowerAscii plainNumber plainDigits
           (js "| Rank | Player |") defaultOptions (js "| Rank | Player |")).
  vm_compute. reflexivity.
Defined.

Lemma header_cells_witness :
  assignKeys lowerAscii (Some [js "Rank"; js "Player"]) [js "1"; js "Al"]
  !! normalizeKey lowerAscii (js "Player")
  = Some (VStr (js "Al")).
Proof.
  refine (proj1 (header_cells lowerAscii [js "Rank"; js "Player"]
                   [js "1"; js "Al"] _) 1%nat (js "Player") eq_refl _).
  - apply (bool_decide_unpack
             (NoDup (map (normalizeKey lowerAscii) [js "Rank"; js "Player"]))).
    vm_compute. exact I.
  - vm_compute. discriminate.
Defined.

Lemma synthesized_id_is_slug_witness :
  exists s,
    buildRecord lowerAscii plainNumber plainDigits (Some [js "Rank"; js "Player"]) defaultOptions 0
      [js "3"; js "O'Brien"] !! js "id" = Some (VStr s)
    /\ slugShape s.
Proof.
  exact (synthesized_id_is_slug lowerAscii plainNumber plainDigits (Some [js "Rank"; js "Player"])
           defaultOptions 0 [js "3"; js "O'Brien"] eq_refl eq_refl).
Defined.

Lemma field_types_witness :
  fieldType (js "rank") (VNum (Fin 3 0)).
Proof.
  apply (field_types lowerAscii plainNumber plainDigits plainNumber_digits
           (Some [js "Rank"; js "Player"]) defaultOptions 0
           [js "#3"; js "Al"] (js "rank") (VNum (Fin 3 0))).
  - reflexivity.
  - discriminate.
  - vm_compute. reflexivity.
Defined.

Lemma sort_is_idempotent_witness :
  sortResults plainNumber [ranked 1; ranked 2; rankless]
  = Return [ranked 1; ranked 2; rankless].
Proof.
  apply (sort_is_idempotent plainNumber [ranked 2; rankless; ranked 1]).
  - repeat (constructor; [exact I|]). constructor.
  - vm_compute. reflexivity.
Defined.

Lemma getArg_first_occurrence_witness :
  getArg sampleArgv (js "--in") = Some (js "a.txt").
Proof.
  refine (proj1 (getArg_first_occurrence [js "node"; js "ranklist"]
                   [js "--meta"; js "state=CT"] (js "--in") (js "a.txt") _)).
  intros [H|[H|[]]]; discriminate H.
Defined.


Lemma last_meta_pair_wins_witness :
  getMetaArgs (sampleArgv ++ [js "--meta"; js "state" ++ EQUALS :: js "NY=1"])
  !! js "state"
  = Some (js "NY=1").
Proof.
  apply (last_meta_pair_wins sampleArgv (js "state") (js "NY=1")).
  split; [discriminate|]. split; [reflexivity|].
  split; [|split; [discriminate | reflexivity]].
  intros H; cbn in H; unfold EQUALS in H.
  repeat (destruct H as [H|H]; [discriminate H|]). exact H.
Defined.

Lemma markdown_cells_skip_empty_witness :
  pipeCells (join [PIPE] [js ""; js " 1 "; js "  "; js " Town "; js ""])
  = [js "1"; js "Town"].
Proof.
  refine (proj1 markdown_cells_skip_empty (js "")
            [js " 1 "; js "  "; js " Town "; js ""] _).
  repeat (constructor;
          [intros H; cbn in H; unfold PIPE in H;
           repeat (destruct H as [H|H]; [discriminate H|]); exact H|]).
  constructor.
Defined.
